(** * Team validation and repair of the Pokemon team generator

    A shallow embedding of the text validators of [utils/pokemon-utils.js]
    ([validateEVSpread], [validatePokemon], [validateTeam]) and of the
    repair pass of the server module ([validateAndFixTeam]), with the
    properties the specification states about them.

    JavaScript strings are sequences of UTF-16 code units; a code unit is
    modelled as an [N] and a string as a list of code units, so that
    [String.prototype.trim] can be given its full white-space set. *)

From Stdlib Require Import List NArith Bool Arith Lia Permutation.
From Stdlib Require Import Ascii.
From Stdlib Require String DecimalString.
Import ListNotations String.StringSyntax.

Delimit Scope string_scope with string.
Bind Scope string_scope with String.string.

Local Open Scope N_scope.
Local Open Scope list_scope.

(** ** JavaScript string primitives *)

Module JS.

Definition char := N.
Definition jsstring := list char.

(** A string literal of the source, as code units. *)
Definition js (s : String.string) : jsstring :=
  map N_of_ascii (String.list_ascii_of_string s).

(** The line feed ['\n']. *)
Definition nl : char := 10.

(** Truthiness of a string: only the empty string is falsy. *)
Definition truthy (s : jsstring) : bool :=
  match s with
  | [] => false
  | _ :: _ => true
  end.

(** White space and line terminators, as removed by [trim]. *)
Definition is_ws (c : char) : bool :=
  (c =? 9) || (c =? 10) || (c =? 11) || (c =? 12) || (c =? 13)
  || (c =? 32) || (c =? 160) || (c =? 5760)
  || ((8192 <=? c) && (c <=? 8202))
  || (c =? 8232) || (c =? 8233) || (c =? 8239) || (c =? 8287)
  || (c =? 12288) || (c =? 65279).

(** The class [\d] of a regular expression: ASCII digits only. *)
Definition is_digit (c : char) : bool := (48 <=? c) && (c <=? 57).

Fixpoint trimStart (s : jsstring) : jsstring :=
  match s with
  | [] => []
  | c :: r => if is_ws c then trimStart r else s
  end.

Definition trimEnd (s : jsstring) : jsstring := rev (trimStart (rev s)).

Definition trim (s : jsstring) : jsstring := trimEnd (trimStart s).

(** [s.startsWith(p)] *)
Fixpoint startsWith (s p : jsstring) {struct p} : bool :=
  match p with
  | [] => true
  | a :: p' =>
      match s with
      | [] => false
      | b :: s' => (b =? a) && startsWith s' p'
      end
  end.

(** [s.includes(p)] *)
Fixpoint includes (s p : jsstring) : bool :=
  startsWith s p
  || match s with
     | [] => false
     | _ :: s' => includes s' p
     end.

(** [s.split(sep)] for a non-empty separator: the text is scanned from the
    left, every occurrence of [sep] found closes the current piece and the
    scan goes on after the occurrence.  [skip] counts the code units of a
    matched separator still to be passed over. *)
Fixpoint split_from (sep : jsstring) (skip : nat) (s : jsstring)
  : list jsstring :=
  match s with
  | [] => [[]]
  | c :: rest =>
      match skip with
      | S k => split_from sep k rest
      | O =>
          if startsWith s sep
          then [] :: split_from sep (length sep - 1) rest
          else match split_from sep 0 rest with
               | piece :: more => (c :: piece) :: more
               | [] => [[c]]
               end
      end
  end.

Definition split (s sep : jsstring) : list jsstring := split_from sep 0 s.

(** [arr.join(sep)] *)
Fixpoint join (arr : list jsstring) (sep : jsstring) : jsstring :=
  match arr with
  | [] => []
  | [x] => x
  | x :: rest => x ++ sep ++ join rest sep
  end.

(** [s.replace(pat, rep)] with a string pattern: the first occurrence only.
    The replacement texts of the source hold no [$] pattern. *)
Fixpoint replace (s pat rep : jsstring) : jsstring :=
  if startsWith s pat then rep ++ skipn (length pat) s
  else match s with
       | [] => []
       | c :: r => c :: replace r pat rep
       end.

(** [s.match(/\d+/g)]: the maximal runs of digits from left to right, and
    [null] when there is none.  [run] holds the digits of the run being
    read, last digit first. *)
Definition flush_run (run : jsstring) : list jsstring :=
  match run with
  | [] => []
  | _ :: _ => [rev run]
  end.

Fixpoint scan_digits (run : jsstring) (s : jsstring) : list jsstring :=
  match s with
  | [] => flush_run run
  | c :: r =>
      if is_digit c then scan_digits (c :: run) r
      else flush_run run ++ scan_digits [] r
  end.

Definition match_digits (s : jsstring) : option (list jsstring) :=
  match scan_digits [] s with
  | [] => None
  | m :: ms => Some (m :: ms)
  end.

(** [parseInt(num)] on a string of decimal digits: its value.  The source
    computes with doubles; every sum that is at most 506 is exact there and
    addition of non-negative doubles never decreases, so the comparison
    with 506 has the same outcome on the exact values. *)
Definition parseInt (num : jsstring) : N :=
  fold_left (fun v c => 10 * v + (c - 48)) num 0.

(** A non-negative integer in a template literal: its decimal digits. *)
Definition dec (n : nat) : jsstring :=
  js (DecimalString.NilEmpty.string_of_uint (Nat.to_uint n)).

End JS.

Import JS.

(** ** The validators of [utils/pokemon-utils.js] *)

(** [validateEVSpread(evString)] *)
Definition validateEVSpread (evString : jsstring) : bool :=
  if negb (truthy evString) then false
  else match match_digits evString with
       | None => false
       | Some numbers =>
           let total := fold_left (fun sum num => sum + parseInt num) numbers 0 in
           total =? 506
       end.

(** The object returned by [validatePokemon]:
    [{ valid: true, pokemon }] or [{ valid: false, error }]. *)
Inductive PokemonResult :=
| PValid (pokemon : jsstring)
| PInvalid (error : jsstring).

Definition pvalid (r : PokemonResult) : bool :=
  match r with
  | PValid _ => true
  | PInvalid _ => false
  end.

(** The trimmed, non-empty lines of an entry. *)
Definition entry_lines (pokemonText : jsstring) : list jsstring :=
  filter truthy (map trim (split pokemonText [nl])).

Definition is_move (line : jsstring) : bool := startsWith line (js "-").
Definition is_ev (line : jsstring) : bool := startsWith line (js "EVs:").
Definition is_ability (line : jsstring) : bool := startsWith line (js "Ability:").
Definition is_nature (line : jsstring) : bool := includes line (js "Nature").

(** [validatePokemon(pokemonText)].  [evFailure] is the early [return] of
    the block [if (evLine) { ... }], if it is taken. *)
Definition validatePokemon (pokemonText : jsstring) : PokemonResult :=
  let lines := entry_lines pokemonText in
  if (length lines <? 6)%nat then PInvalid (js "Pokemon entry too short")
  else
    let hasItem := includes (nth 0 lines []) (js "@") in
    let hasAbility := existsb is_ability lines in
    let hasEVs := existsb is_ev lines in
    let hasNature := existsb is_nature lines in
    let hasMoves := existsb is_move lines in
    if negb hasItem then PInvalid (js "Missing item (@)")
    else if negb hasAbility then PInvalid (js "Missing ability")
    else if negb hasEVs then PInvalid (js "Missing EVs")
    else if negb hasNature then PInvalid (js "Missing nature")
    else if negb hasMoves then PInvalid (js "Missing moves")
    else
      let evFailure :=
        match find is_ev lines with
        | Some evLine =>
            if truthy evLine then
              let evSpread := trim (replace evLine (js "EVs:") []) in
              if negb (validateEVSpread evSpread)
              then Some (PInvalid (js "Invalid EV spread: " ++ evSpread))
              else None
            else None
        | None => None
        end in
      match evFailure with
      | Some failure => failure
      | None =>
          let moves := filter is_move lines in
          if negb (length moves =? 4)%nat
          then PInvalid (js "Expected 4 moves, found " ++ dec (length moves))
          else PValid pokemonText
      end.

(** An element of [validation_results]: [{ index, ...result }]. *)
Record Detail := mkDetail { index : nat; result : PokemonResult }.

(** The object returned by [validateTeam]: [{ valid: true, pokemon_count,
    details }] or [{ valid: false, error, details }], where the failure on
    the number of entries has no [details]. *)
Inductive TeamResult :=
| TValid (pokemon_count : nat) (details : list Detail)
| TInvalid (error : jsstring) (details : option (list Detail)).

Definition tvalid (r : TeamResult) : bool :=
  match r with
  | TValid _ _ => true
  | TInvalid _ _ => false
  end.

Definition pokemonEntries (teamText : jsstring) : list jsstring :=
  filter (fun entry => truthy (trim entry)) (split teamText [nl; nl]).

(** The [for] loop of [validateTeam], from index [i] on, over the entries
    still to visit: an early [return] is [inl], falling out of the loop with
    the results pushed so far is [inr]. *)
Fixpoint validateTeam_loop (i : nat) (entries : list jsstring)
    (validation_results : list Detail) : TeamResult + list Detail :=
  match entries with
  | [] => inr validation_results
  | entry :: entries' =>
      let result := validatePokemon entry in
      let validation_results :=
        validation_results ++ [mkDetail (i + 1) result] in
      match result with
      | PInvalid error =>
          inl (TInvalid (js "Pokemon " ++ dec (i + 1) ++ js ": " ++ error)
                        (Some validation_results))
      | PValid _ => validateTeam_loop (i + 1) entries' validation_results
      end
  end.

(** [validateTeam(teamText)] *)
Definition validateTeam (teamText : jsstring) : TeamResult :=
  let pokemonEntries := pokemonEntries teamText in
  if negb (length pokemonEntries =? 6)%nat
  then TInvalid (js "Expected 6 Pokemon, found " ++ dec (length pokemonEntries))
                None
  else match validateTeam_loop 0 pokemonEntries [] with
       | inl failure => failure
       | inr validation_results =>
           TValid (length pokemonEntries) validation_results
       end.

(** ** The repair pass of the server module *)

(** The variables the repair loop updates. *)
Record FixState := mkFixState {
  pokemonCount : nat;
  currentPokemon : list jsstring;
  validatedTeam : list jsstring
}.

(** One iteration of [for (let line of lines)]. *)
Definition fix_step (st : FixState) (line : jsstring) : FixState :=
  let line := trim line in
  if negb (truthy line) then
    if (0 <? length (currentPokemon st))%nat
    then mkFixState (pokemonCount st + 1) []
                    (validatedTeam st ++ [join (currentPokemon st) [nl]])
    else st
  else if includes line (js "@") then
    if (0 <? length (currentPokemon st))%nat
    then mkFixState (pokemonCount st + 1) [line]
                    (validatedTeam st ++ [join (currentPokemon st) [nl]])
    else mkFixState (pokemonCount st) [line] (validatedTeam st)
  else mkFixState (pokemonCount st) (currentPokemon st ++ [line])
                  (validatedTeam st).

(** The statement after the loop: the last entry, when there is one. *)
Definition fix_finish (st : FixState) : FixState :=
  if (0 <? length (currentPokemon st))%nat
  then mkFixState (pokemonCount st + 1) (currentPokemon st)
                  (validatedTeam st ++ [join (currentPokemon st) [nl]])
  else st.

(** [validateAndFixTeam(team, format)]; [format] is not used, and the two
    [console.log] calls before the [return] are left out. *)
Definition validateAndFixTeam (team format : jsstring) : jsstring :=
  let validation := validateTeam team in
  if tvalid validation then team
  else
    let lines := split team [nl] in
    let st := fold_left fix_step lines (mkFixState 0 [] []) in
    let st := fix_finish st in
    join (validatedTeam st) [nl; nl].

(** ** Sample texts *)

Definition unlines (ls : list String.string) : jsstring := join (map js ls) [nl].

(** [validPokemon] of [test-utils.js]. *)
Definition flygon : jsstring := unlines
  [ "Flygon @ Loaded Dice  "; "Ability: Levitate  "; "Tera Type: Fire  ";
    "EVs: 248 Atk / 6 SpD / 252 Spe  "; "Jolly Nature  "; "- Dragon Dance  ";
    "- Earthquake  "; "- Scale Shot  "; "- Fire Punch" ]%string.

Definition galvantula : jsstring := unlines
  [ "Galvantula @ Focus Sash  "; "Ability: Compound Eyes  ";
    "Tera Type: Ghost  "; "EVs: 2 HP / 252 SpA / 252 Spe  ";
    "Timid Nature  "; "IVs: 0 Atk  "; "- Sticky Web  "; "- Thunder  ";
    "- Bug Buzz  "; "- Thunder Wave" ]%string.

(** The entry shown in the system prompt of the server module; its EVs sum
    to 508. *)
Definition flygon508 : jsstring := unlines
  [ "Flygon @ Loaded Dice  "; "Ability: Levitate  "; "Tera Type: Fire  ";
    "EVs: 252 Atk / 4 SpD / 252 Spe  "; "Jolly Nature  "; "- Dragon Dance  ";
    "- Earthquake  "; "- Scale Shot  "; "- Fire Punch" ]%string.

(** [sampleTeam] of [test-utils.js]: two entries. *)
Definition sampleTeam : jsstring := join [flygon; galvantula] [nl; nl].

Definition team6 : jsstring :=
  join [flygon; galvantula; flygon; galvantula; flygon; galvantula] [nl; nl].

Definition team6_bad3 : jsstring :=
  join [flygon; galvantula; flygon508; galvantula; flygon; galvantula] [nl; nl].

(** ** The properties of the specification, as definitions *)

(** The pieces of a text between the code units that satisfy [p]. *)
Fixpoint pieces (p : char -> bool) (s : jsstring) : list jsstring :=
  match s with
  | [] => [[]]
  | c :: r =>
      if p c then [] :: pieces p r
      else match pieces p r with
           | x :: more => (c :: x) :: more
           | [] => [[c]]
           end
  end.

(** In the specification's words: every maximal run of decimal digits of a
    text, that is, every non-empty piece between two code units that are
    not digits. *)
Definition maximal_digit_runs (s : jsstring) : list jsstring :=
  filter truthy (pieces (fun c => negb (is_digit c)) s).

Definition digit_sum (s : jsstring) : N :=
  fold_right (fun run acc => parseInt run + acc) 0 (maximal_digit_runs s).

(** A text with every code unit that is not a digit replaced by a space:
    the labels are gone, the digit runs stay. *)
Definition blank_labels (s : jsstring) : jsstring :=
  map (fun c => if is_digit c then c else 32) s.

(** *** Entries *)

Definition header (E : jsstring) : jsstring := nth 0 (entry_lines E) [].

Definition move_count (E : jsstring) : nat :=
  length (filter is_move (entry_lines E)).

(** The EV line of an entry is its first line that starts with ["EVs:"];
    the sum of its digit runs is 0 when there is no such line. *)
Definition ev_line_sum (E : jsstring) : N :=
  match find is_ev (entry_lines E) with
  | Some evLine => digit_sum evLine
  | None => 0
  end.

(** The conditions of validity as the specification lists them, the item
    delimiter being looked for anywhere in the entry. *)
Definition record_ok_as_stated (E : jsstring) : bool :=
  (6 <=? length (entry_lines E))%nat
  && includes E (js "@")
  && existsb is_ability (entry_lines E)
  && existsb is_ev (entry_lines E)
  && existsb is_nature (entry_lines E)
  && (move_count E =? 4)%nat
  && (ev_line_sum E =? 506).

(** The same conditions with the item delimiter looked for in the header
    line, the first trimmed non-empty line. *)
Definition record_ok (E : jsstring) : bool :=
  (6 <=? length (entry_lines E))%nat
  && includes (header E) (js "@")
  && existsb is_ability (entry_lines E)
  && existsb is_ev (entry_lines E)
  && existsb is_nature (entry_lines E)
  && (move_count E =? 4)%nat
  && (ev_line_sum E =? 506).

(** The five presence checks that come before the check on move lines. *)
Definition structure_ok (E : jsstring) : bool :=
  (6 <=? length (entry_lines E))%nat
  && includes (header E) (js "@")
  && existsb is_ability (entry_lines E)
  && existsb is_ev (entry_lines E)
  && existsb is_nature (entry_lines E).

(** The spread text echoed by the EV failure: the EV line without its
    prefix, trimmed. *)
Definition ev_spread (lines : list jsstring) : jsstring :=
  match find is_ev lines with
  | Some evLine => trim (replace evLine (js "EVs:") [])
  | None => []
  end.

(** The rule table of the specification: each check with the reason given
    when it fails, in the order of evaluation. *)
Record Check := mkCheck {
  passes : list jsstring -> bool;
  reason : list jsstring -> jsstring
}.

Definition record_checks : list Check :=
  [ mkCheck (fun ls => (6 <=? length ls)%nat)
            (fun _ => js "Pokemon entry too short");
    mkCheck (fun ls => includes (nth 0 ls []) (js "@"))
            (fun _ => js "Missing item (@)");
    mkCheck (existsb is_ability) (fun _ => js "Missing ability");
    mkCheck (existsb is_ev) (fun _ => js "Missing EVs");
    mkCheck (existsb is_nature) (fun _ => js "Missing nature");
    mkCheck (existsb is_move) (fun _ => js "Missing moves");
    mkCheck (fun ls => match find is_ev ls with
                       | Some _ => validateEVSpread (ev_spread ls)
                       | None => true
                       end)
            (fun ls => js "Invalid EV spread: " ++ ev_spread ls);
    mkCheck (fun ls => (length (filter is_move ls) =? 4)%nat)
            (fun ls => js "Expected 4 moves, found "
                       ++ dec (length (filter is_move ls))) ].

(** The reason of the first check that fails, if any. *)
Fixpoint first_failure (checks : list Check) (ls : list jsstring)
  : option jsstring :=
  match checks with
  | [] => None
  | c :: cs => if passes c ls then first_failure cs ls else Some (reason c ls)
  end.

Definition verdict (E : jsstring) (failure : option jsstring) : PokemonResult :=
  match failure with
  | Some r => PInvalid r
  | None => PValid E
  end.

(** The reasons as the specification words them, each given whenever its
    own condition holds. *)
Definition reasons_as_stated (E : jsstring) : Prop :=
  ((length (entry_lines E) < 6)%nat ->
     validatePokemon E = PInvalid (js "entry too short"))
  /\ (includes (header E) (js "@") = false ->
     validatePokemon E = PInvalid (js "missing item marker"))
  /\ (existsb is_ability (entry_lines E) = false ->
     validatePokemon E = PInvalid (js "missing ability line"))
  /\ (existsb is_ev (entry_lines E) = false ->
     validatePokemon E = PInvalid (js "missing EV line"))
  /\ (existsb is_nature (entry_lines E) = false ->
     validatePokemon E = PInvalid (js "missing nature line"))
  /\ (existsb is_move (entry_lines E) = false ->
     validatePokemon E = PInvalid (js "missing move lines")).

(** *** Teams *)

(** The details of [n] entries visited from loop index [i] on: each entry
    with its 1-based index and its own result. *)
Definition details_from (i n : nat) (entries : list jsstring) : list Detail :=
  map (fun ie => mkDetail (fst ie + 1) (validatePokemon (snd ie)))
      (combine (seq i n) entries).

(** The detail list after the first [n] entries of a team. *)
Definition details_upto (n : nat) (entries : list jsstring) : list Detail :=
  details_from 0 n entries.

(** A block of text that is one candidate entry of a team: it holds a code
    unit that is not white space, no two line feeds in a row, and neither
    starts nor ends with a line feed. *)
Definition endsWith (s p : jsstring) : bool := startsWith (rev s) (rev p).

Definition block (e : jsstring) : Prop :=
  truthy (trim e) = true
  /\ includes e [nl; nl] = false
  /\ startsWith e [nl] = false
  /\ endsWith e [nl] = false.

(** A line that reads as blank without being empty: white space only, and
    no line feed. *)
Definition blank_line (w : jsstring) : Prop :=
  w <> [] /\ Forall (fun c => is_ws c = true /\ c <> nl) w.

(** *** Repair *)

(** The lines of a text that are not blank, as they stand. *)
Definition nonblank_lines (T : jsstring) : list jsstring :=
  filter (fun line => truthy (trim line)) (split T [nl]).

(** The lines of a text that are not blank, trimmed. *)
Definition trimmed_lines (T : jsstring) : list jsstring :=
  filter truthy (map trim (split T [nl])).

(** A line as the repair loop keeps it: not empty, trimmed, and without a
    line feed. *)
Definition clean_line (l : jsstring) : Prop :=
  truthy l = true /\ trim l = l /\ Forall (fun c => (c =? nl) = false) l.

(** The invariant of the repair loop: the lines kept so far, those of the
    closed entries followed by those of the open one, are the trimmed
    non-empty lines [seen] so far. *)
Definition fix_inv (st : FixState) (seen : list jsstring) : Prop :=
  Forall clean_line (currentPokemon st)
  /\ concat (map trimmed_lines (validatedTeam st)) ++ currentPokemon st = seen.

(** Sample entries for the claims on single entries. *)

(** No item delimiter in the header, one in a move line. *)
Definition late_item : jsstring := unlines
  [ "Flygon"; "Ability: Levitate"; "EVs: 248 Atk / 6 SpD / 252 Spe";
    "Jolly Nature"; "- Dragon Dance"; "- Earthquake"; "- Scale Shot @ home";
    "- Fire Punch" ]%string.

(** Neither an ability line nor a nature line, and two lines only. *)
Definition short_entry : jsstring := unlines
  [ "Flygon @ Loaded Dice"; "- Dragon Dance" ]%string.

(** Neither an ability line nor a nature line, in an entry long enough. *)
Definition no_ability_no_nature : jsstring := unlines
  [ "Flygon @ Loaded Dice"; "Tera Type: Fire";
    "EVs: 248 Atk / 6 SpD / 252 Spe"; "- Dragon Dance"; "- Earthquake";
    "- Scale Shot"; "- Fire Punch" ]%string.

(** Everything but the move lines. *)
Definition no_moves : jsstring := unlines
  [ "Galvantula @ Focus Sash"; "Ability: Compound Eyes"; "Tera Type: Ghost";
    "EVs: 2 HP / 252 SpA / 252 Spe"; "Timid Nature"; "IVs: 0 Atk" ]%string.

(** Three move lines. *)
Definition three_moves : jsstring := unlines
  [ "Flygon @ Loaded Dice"; "Ability: Levitate"; "Tera Type: Fire";
    "EVs: 248 Atk / 6 SpD / 252 Spe"; "Jolly Nature"; "- Dragon Dance";
    "- Earthquake"; "- Scale Shot" ]%string.

Definition no_item : jsstring := unlines
  [ "Flygon"; "Ability: Levitate"; "Tera Type: Fire";
    "EVs: 248 Atk / 6 SpD / 252 Spe"; "Jolly Nature"; "- Dragon Dance";
    "- Earthquake"; "- Scale Shot"; "- Fire Punch" ]%string.

Definition no_ability : jsstring := unlines
  [ "Flygon @ Loaded Dice"; "Tera Type: Fire";
    "EVs: 248 Atk / 6 SpD / 252 Spe"; "Jolly Nature"; "- Dragon Dance";
    "- Earthquake"; "- Scale Shot"; "- Fire Punch" ]%string.

Definition no_evs : jsstring := unlines
  [ "Flygon @ Loaded Dice"; "Ability: Levitate"; "Tera Type: Fire";
    "Jolly Nature"; "- Dragon Dance"; "- Earthquake"; "- Scale Shot";
    "- Fire Punch" ]%string.

Definition no_nature : jsstring := unlines
  [ "Flygon @ Loaded Dice"; "Ability: Levitate"; "Tera Type: Fire";
    "EVs: 248 Atk / 6 SpD / 252 Spe"; "- Dragon Dance"; "- Earthquake";
    "- Scale Shot"; "- Fire Punch" ]%string.

(** ** Further definitions *)

(** The conditions of validity without the one on the number of lines. *)
Definition record_ok_sans_length (E : jsstring) : bool :=
  includes (header E) (js "@")
  && existsb is_ability (entry_lines E)
  && existsb is_ev (entry_lines E)
  && existsb is_nature (entry_lines E)
  && (move_count E =? 4)%nat
  && (ev_line_sum E =? 506).

(** The table [COMMON_EV_SPREADS] of [utils/pokemon-utils.js]: the spreads
    listed for each role. *)
Definition COMMON_EV_SPREADS : list (jsstring * list jsstring) :=
  [ (js "Physical Sweeper",
     [js "252 Atk / 4 HP / 252 Spe"; js "252 Atk / 4 SpD / 252 Spe"]);
    (js "Special Sweeper",
     [js "252 SpA / 4 HP / 252 Spe"; js "252 SpA / 4 SpD / 252 Spe"]);
    (js "Physical Wall",
     [js "252 HP / 252 Def / 4 SpD"; js "248 HP / 252 Def / 8 SpA"]);
    (js "Special Wall",
     [js "252 HP / 4 Def / 252 SpD"; js "248 HP / 8 Def / 252 SpD"]);
    (js "Mixed Wall",
     [js "252 HP / 4 Def / 252 SpD"; js "252 HP / 128 Def / 128 SpD"]);
    (js "Fast Support",
     [js "252 HP / 4 Def / 252 Spe"; js "248 HP / 8 Def / 252 Spe"]);
    (js "Bulky Attacker",
     [js "248 HP / 252 Atk / 8 SpD"; js "212 HP / 252 Atk / 44 Spe"]) ].

(** *** The repair loop, segment by segment *)

(** The entries closed once the loop is left in state [st]: those pushed
    so far and the open one, if any. *)
Definition flushed (st : FixState) : list jsstring :=
  validatedTeam (fix_finish st).

(** A line that the repair loop takes for blank. *)
Definition blank (l : jsstring) : Prop := truthy (trim l) = false.

(** A line with the item delimiter, which opens an entry. *)
Definition has_item (l : jsstring) : bool := includes (trim l) (js "@").

(** The lines of one entry for the repair loop: a first line that is not
    blank, then lines that are neither blank nor with the item delimiter. *)
Definition entry_shape (ls : list jsstring) : Prop :=
  match ls with
  | [] => False
  | h :: rest =>
      truthy (trim h) = true
      /\ Forall (fun l => truthy (trim l) = true /\ has_item l = false) rest
  end.

(** A segment of the lines of a text: blank lines, then the lines of one
    entry. *)
Definition Segment : Type := list jsstring * list jsstring.

Definition segment_lines (s : Segment) : list jsstring := fst s ++ snd s.

(** The entry the repair makes of a segment: its lines trimmed and joined. *)
Definition segment_entry (s : Segment) : jsstring :=
  join (map trim (snd s)) [nl].

(** Segments in a row, as the loop reads them: each one starts where the
    loop opens an entry, at a line with the item delimiter, after a blank
    line, or at the first line of all ([fresh]). *)
Fixpoint segments_ok (fresh : bool) (segs : list Segment) : Prop :=
  match segs with
  | [] => True
  | s :: more =>
      Forall blank (fst s)
      /\ entry_shape (snd s)
      /\ (has_item (hd [] (snd s)) = true \/ fst s <> [] \/ fresh = true)
      /\ segments_ok false more
  end.

(** The lines of a repaired text as segments: one empty line before every
    entry but the first. *)
Definition regrouped (groups : list (list jsstring)) : list Segment :=
  match groups with
  | [] => []
  | g :: more => ([], g) :: map (fun g' => ([[]], g')) more
  end.

(** The lines of one entry of a repaired text: clean lines, one at least,
    with no item delimiter after the first. *)
Definition good_group (g : list jsstring) : Prop :=
  g <> []
  /\ Forall clean_line g
  /\ Forall (fun l => includes l (js "@") = false) (tl g).

(** *** Line feeds between entries *)

(** A team text whose entries are set apart by runs of two line feeds or
    more: [e], then each further entry after [2 + k] line feeds. *)
Fixpoint spaced_team (e : jsstring) (more : list (nat * jsstring))
  : jsstring :=
  match more with
  | [] => e
  | (k, e') :: more' => e ++ repeat nl (2 + k) ++ spaced_team e' more'
  end.

(** The candidate that [validateTeam] makes of an entry that comes after
    [2 + k] line feeds: an odd line feed stays in front of it. *)
Definition after_line_feeds (p : nat * jsstring) : jsstring :=
  if Nat.odd (fst p) then nl :: snd p else snd p.

(** The reason of a rejection, if any. *)
Definition team_error (r : TeamResult) : option jsstring :=
  match r with
  | TValid _ _ => None
  | TInvalid error _ => Some error
  end.

Definition loop_error (r : TeamResult + list Detail) : option jsstring :=
  match r with
  | inl failure => team_error failure
  | inr _ => None
  end.

(** *** The caller of the repair *)

(** What [generateTeamWithAI] returns once the completion has come, as a
    function of the text [content] of its first message: the text is
    trimmed and handed to [validateAndFixTeam]. *)
Definition generateTeamWithAI_result (content format : jsstring) : jsstring :=
  let team := trim content in
  let validatedTeam := validateAndFixTeam team format in
  validatedTeam.

(** A text that is not empty and has no white space at either end. *)
Definition tidy (s : jsstring) : Prop :=
  s <> [] /\ trimStart s = s /\ trimStart (rev s) = rev s.

(** Six entries run together, no blank line between them. *)
Definition run_together : jsstring :=
  join [flygon; galvantula; flygon; galvantula; flygon; galvantula] [nl].

Definition run_together_segments : list Segment :=
  map (fun e => ([], split e [nl]))
      [flygon; galvantula; flygon; galvantula; flygon; galvantula].

(** ** Lemmas on the string primitives *)

(** Closes a goal between closed terms by evaluation. *)
Ltac run := vm_compute; reflexivity.

Section DigitRuns.

Lemma flush_run_filter (run x : jsstring) (more : list jsstring) :
  x = [] ->
  filter truthy ((rev run ++ x) :: more) = flush_run run ++ filter truthy more.
Proof.
  intros ->. rewrite app_nil_r.
  destruct run as [|c run]; simpl; [reflexivity|].
  destruct (rev run ++ [c]) eqn:E; [|reflexivity].
  apply app_eq_nil in E. destruct E; discriminate.
Qed.

Lemma truthy_snoc (a x : jsstring) (c : char) : truthy (a ++ c :: x) = true.
Proof. destruct a; reflexivity. Qed.

Lemma scan_digits_pieces (s run : jsstring) :
  scan_digits run s =
  match pieces (fun c => negb (is_digit c)) s with
  | x :: more => filter truthy ((rev run ++ x) :: more)
  | [] => flush_run run
  end.
Proof.
  revert run. induction s as [|c r IH]; intros run; cbn [scan_digits pieces].
  - rewrite flush_run_filter by reflexivity. now rewrite app_nil_r.
  - destruct (is_digit c) eqn:D; cbn [negb].
    + rewrite IH.
      destruct (pieces _ r) as [|x more]; cbn [rev flush_run filter].
      * now rewrite truthy_snoc.
      * now rewrite <- app_assoc.
    + rewrite flush_run_filter by reflexivity. f_equal.
      rewrite IH. destruct (pieces _ r); reflexivity.
Qed.

Lemma scan_digits_runs (s : jsstring) :
  scan_digits [] s = maximal_digit_runs s.
Proof.
  rewrite scan_digits_pieces. unfold maximal_digit_runs.
  destruct (pieces _ s) eqn:E; [|reflexivity].
  destruct s; simpl in E; [discriminate|].
  destruct (negb (is_digit c)); [discriminate|].
  destruct (pieces _ s); discriminate.
Qed.

Lemma sum_fold_left (runs : list jsstring) (a : N) :
  fold_left (fun sum num => sum + parseInt num) runs a =
  a + fold_right (fun run acc => parseInt run + acc) 0 runs.
Proof.
  revert a. induction runs as [|r runs IH]; intros a; simpl.
  - lia.
  - rewrite IH. lia.
Qed.

Lemma validateEVSpread_digit_sum (s : jsstring) :
  validateEVSpread s = (digit_sum s =? 506).
Proof.
  unfold validateEVSpread, match_digits, digit_sum.
  rewrite scan_digits_runs.
  destruct s as [|c s]; [reflexivity|]. simpl negb. cbv iota.
  destruct (maximal_digit_runs (c :: s)) as [|m ms]; [reflexivity|].
  now rewrite sum_fold_left.
Qed.

Lemma scan_digits_blank_labels (s run : jsstring) :
  scan_digits run (blank_labels s) = scan_digits run s.
Proof.
  revert run. induction s as [|c r IH]; intros run; simpl; [reflexivity|].
  destruct (is_digit c) eqn:D.
  - rewrite D. apply IH.
  - simpl. now rewrite IH.
Qed.

End DigitRuns.

Section Trim.

Lemma is_ws_not_digit (c : char) : is_ws c = true -> is_digit c = false.
Proof.
  unfold is_ws, is_digit. intros H.
  repeat (apply orb_true_iff in H; destruct H as [H|H]);
    try (apply N.eqb_eq in H; subst c; reflexivity).
  apply andb_true_iff in H. destruct H as [H1 H2].
  apply N.leb_le in H1. apply andb_false_iff. right. apply N.leb_gt. lia.
Qed.

Lemma trimStart_decompose (s : jsstring) :
  exists p, s = p ++ trimStart s /\ Forall (fun c => is_ws c = true) p.
Proof.
  induction s as [|c r [p [E F]]]; simpl.
  - exists []. split; [reflexivity|constructor].
  - destruct (is_ws c) eqn:W.
    + exists (c :: p). split; [simpl; congruence|now constructor].
    + exists []. split; [reflexivity|constructor].
Qed.

Lemma trimEnd_decompose (s : jsstring) :
  exists p, s = trimEnd s ++ p /\ Forall (fun c => is_ws c = true) p.
Proof.
  unfold trimEnd. destruct (trimStart_decompose (rev s)) as [p [E F]].
  exists (rev p). split.
  - rewrite <- rev_app_distr, <- E. now rewrite rev_involutive.
  - now apply Forall_rev.
Qed.

Lemma trim_decompose (s : jsstring) :
  exists p q, s = p ++ trim s ++ q
              /\ Forall (fun c => is_ws c = true) p
              /\ Forall (fun c => is_ws c = true) q.
Proof.
  destruct (trimStart_decompose s) as [p [E F]].
  destruct (trimEnd_decompose (trimStart s)) as [q [E' F']].
  exists p, q. unfold trim. now rewrite <- E', <- E.
Qed.

Lemma scan_digits_skip_prefix (p s : jsstring) :
  Forall (fun c => is_digit c = false) p ->
  scan_digits [] (p ++ s) = scan_digits [] s.
Proof.
  induction 1 as [|c p D _ IH]; simpl; [reflexivity|].
  now rewrite D.
Qed.

Lemma scan_digits_skip_suffix (q s run : jsstring) :
  Forall (fun c => is_digit c = false) q ->
  scan_digits run (s ++ q) = scan_digits run s.
Proof.
  intros F. revert run. induction s as [|c r IH]; intros run; simpl.
  - destruct F as [|c q D F]; simpl; [reflexivity|].
    rewrite D. rewrite <- (app_nil_r q).
    rewrite scan_digits_skip_prefix by assumption.
    simpl. now rewrite app_nil_r.
  - destruct (is_digit c); now rewrite IH.
Qed.

Lemma ws_not_digits (p : jsstring) :
  Forall (fun c => is_ws c = true) p -> Forall (fun c => is_digit c = false) p.
Proof. apply Forall_impl. exact is_ws_not_digit. Qed.

Lemma digit_sum_trim (s : jsstring) : digit_sum (trim s) = digit_sum s.
Proof.
  unfold digit_sum. rewrite <- !scan_digits_runs.
  destruct (trim_decompose s) as [p [q [E [P Q]]]].
  rewrite E at 2.
  rewrite scan_digits_skip_prefix by now apply ws_not_digits.
  now rewrite scan_digits_skip_suffix by now apply ws_not_digits.
Qed.

Lemma startsWith_app (s p : jsstring) :
  startsWith s p = true -> s = p ++ skipn (length p) s.
Proof.
  revert s. induction p as [|a p IH]; intros s H; simpl in *; [reflexivity|].
  destruct s as [|b s]; [discriminate|].
  apply andb_true_iff in H. destruct H as [H1 H2].
  apply N.eqb_eq in H1. subst b. simpl. f_equal. now apply IH.
Qed.

Lemma replace_prefix (s pat rep : jsstring) :
  startsWith s pat = true -> replace s pat rep = rep ++ skipn (length pat) s.
Proof. intros H. destruct s; cbn [replace]; now rewrite H. Qed.

End Trim.

Section Entries.

Lemma is_ev_truthy (l : jsstring) : is_ev l = true -> truthy l = true.
Proof. destruct l; [discriminate|reflexivity]. Qed.

(** The spread handed to [validateEVSpread] has the digit runs of the EV
    line it is taken from. *)
Lemma ev_spread_digit_sum (l : jsstring) :
  is_ev l = true ->
  digit_sum (trim (replace l (js "EVs:") [])) = digit_sum l.
Proof.
  intros H. rewrite digit_sum_trim.
  rewrite replace_prefix by exact H.
  apply startsWith_app in H. rewrite H at 2.
  unfold digit_sum. rewrite <- !scan_digits_runs.
  now rewrite (scan_digits_skip_prefix (js "EVs:"))
    by (repeat constructor).
Qed.

Lemma validatePokemon_first_failure (E : jsstring) :
  validatePokemon E = verdict E (first_failure record_checks (entry_lines E)).
Proof.
  unfold validatePokemon, record_checks.
  cbn [first_failure passes reason]. unfold ev_spread.
  rewrite Nat.ltb_antisym.
  destruct (6 <=? length (entry_lines E))%nat; [|reflexivity].
  cbn [negb].
  destruct (includes (nth 0 (entry_lines E) []) (js "@")); [|reflexivity].
  destruct (existsb is_ability (entry_lines E)); [|reflexivity].
  destruct (existsb is_ev (entry_lines E)); [|reflexivity].
  destruct (existsb is_nature (entry_lines E)); [|reflexivity].
  destruct (existsb is_move (entry_lines E)); [|reflexivity].
  cbn [negb].
  destruct (find is_ev (entry_lines E)) as [evLine|] eqn:F.
  - apply find_some in F. destruct F as [_ F].
    rewrite (is_ev_truthy _ F).
    destruct (validateEVSpread _); cbn [negb]; [|reflexivity].
    destruct (length (filter is_move (entry_lines E)) =? 4)%nat; reflexivity.
  - destruct (length (filter is_move (entry_lines E)) =? 4)%nat; reflexivity.
Qed.

(** The EV check of the table, read on the EV line itself. *)
Lemma ev_check_sum (E : jsstring) :
  existsb is_ev (entry_lines E) = true ->
  match find is_ev (entry_lines E) with
  | Some _ => validateEVSpread (ev_spread (entry_lines E))
  | None => true
  end = (ev_line_sum E =? 506).
Proof.
  intros H. unfold ev_line_sum, ev_spread.
  destruct (find is_ev (entry_lines E)) as [l|] eqn:F.
  - apply find_some in F. destruct F as [_ F].
    now rewrite validateEVSpread_digit_sum, ev_spread_digit_sum.
  - apply existsb_exists in H. destruct H as [l [I L]].
    now rewrite (find_none _ _ F l I) in L.
Qed.

Lemma existsb_filter_length (f : jsstring -> bool) (ls : list jsstring) :
  existsb f ls = negb (length (filter f ls) =? 0)%nat.
Proof.
  induction ls as [|l ls IH]; simpl; [reflexivity|].
  destruct (f l); simpl; [reflexivity|exact IH].
Qed.

Lemma validatePokemon_record_ok (E : jsstring) :
  validatePokemon E =
    (if record_ok E then PValid E
     else verdict E (first_failure record_checks (entry_lines E)))
  /\ pvalid (validatePokemon E) = record_ok E.
Proof.
  rewrite validatePokemon_first_failure.
  unfold record_ok, header, move_count, record_checks.
  cbn [first_failure passes reason].
  destruct (6 <=? length (entry_lines E))%nat; [|split; reflexivity].
  destruct (includes (nth 0 (entry_lines E) []) (js "@")); [|split; reflexivity].
  destruct (existsb is_ability (entry_lines E)); [|split; reflexivity].
  destruct (existsb is_ev (entry_lines E)) eqn:V; [|split; reflexivity].
  destruct (existsb is_nature (entry_lines E)); [|split; reflexivity].
  rewrite (ev_check_sum E V).
  rewrite existsb_filter_length.
  cbn [andb].
  destruct (length (filter is_move (entry_lines E))) as [|[|[|[|[|n]]]]];
    cbn [Nat.eqb negb andb verdict pvalid];
    destruct (ev_line_sum E =? 506); split; reflexivity.
Qed.

End Entries.

(** C6. [validateEVSpread] answers [true] exactly when the maximal runs of
    decimal digits of its argument sum to 506, whatever the text between
    them: replacing every label by blanks changes nothing.  On
    ["252 Atk / 2 HP / 252 Spe"] the sum is 506 and the answer [true]; on
    ["252 Atk / 4 HP / 252 Spe"] the sum is 508 and the answer [false]. *)
Theorem validateEVSpread_sums_digit_runs :
  (forall s, validateEVSpread s = (digit_sum s =? 506))
  /\ (forall s, validateEVSpread (blank_labels s) = validateEVSpread s)
  /\ digit_sum (js "252 Atk / 2 HP / 252 Spe") = 506
  /\ validateEVSpread (js "252 Atk / 2 HP / 252 Spe") = true
  /\ digit_sum (js "252 Atk / 4 HP / 252 Spe") = 508
  /\ validateEVSpread (js "252 Atk / 4 HP / 252 Spe") = false.
Proof.
  split; [exact validateEVSpread_digit_sum|].
  split; [|repeat split; run].
  intros s. unfold validateEVSpread, match_digits.
  rewrite scan_digits_blank_labels.
  destruct s; reflexivity.
Qed.

(** ** Single entries *)

(** C1, as the specification words it, fails: [late_item] meets every
    listed condition, its item delimiter standing in a move line, and is
    rejected for the missing item. *)
Lemma late_item_refutes_stated_validity :
  ~ (pvalid (validatePokemon late_item) = true
     <-> record_ok_as_stated late_item = true).
Proof.
  intros [_ H].
  assert (S : record_ok_as_stated late_item = true) by run.
  apply H in S. vm_compute in S. discriminate.
Qed.

(** C1 (amended). [validatePokemon] accepts an entry, returning its text
    untouched, if and only if the entry has at least 6 trimmed non-empty
    lines, its header line holds the item delimiter, some line starts with
    ["Ability:"], some line starts with ["EVs:"], some line holds
    ["Nature"], exactly 4 lines start with the move marker, and the digit
    runs of its EV line sum to 506. *)
Theorem validatePokemon_valid_iff (E : jsstring) :
  (pvalid (validatePokemon E) = true <-> record_ok E = true)
  /\ (record_ok E = true -> validatePokemon E = PValid E).
Proof.
  destruct (validatePokemon_record_ok E) as [H1 H2]. split.
  - now rewrite H2.
  - intros R. now rewrite H1, R.
Qed.

Lemma validatePokemon_valid_iff_witness :
  record_ok flygon = true
  /\ pvalid (validatePokemon flygon) = true
  /\ validatePokemon flygon = PValid flygon.
Proof.
  assert (R : record_ok flygon = true) by run.
  refine (conj R (conj _ _)).
  - exact (proj2 (proj1 (validatePokemon_valid_iff flygon)) R).
  - exact (proj2 (validatePokemon_valid_iff flygon) R).
Defined.

(** C7, as the specification words it, fails: [short_entry] has neither an
    ability line nor a nature line and is rejected for its length. *)
Lemma short_entry_refutes_ability_reason :
  ~ (existsb is_ability (entry_lines short_entry) = false ->
     existsb is_nature (entry_lines short_entry) = false ->
     validatePokemon short_entry = PInvalid (js "Missing ability")).
Proof.
  intros H.
  assert (V : validatePokemon short_entry = PInvalid (js "Missing ability"))
    by (apply H; vm_compute; reflexivity).
  vm_compute in V. discriminate.
Qed.

(** C7 (amended). [validatePokemon] runs its checks in the order of
    [record_checks] (line count, item marker, ability, EVs present, nature,
    moves present, EV sum, move count) and returns the reason of the first
    one that fails, alone.  In particular an entry of at least 6 lines,
    with the item delimiter in its header, that has neither an ability line
    nor a nature line is rejected for the missing ability. *)
Theorem validatePokemon_first_failure_wins (E : jsstring) :
  validatePokemon E = verdict E (first_failure record_checks (entry_lines E))
  /\ ((6 <= length (entry_lines E))%nat ->
      includes (header E) (js "@") = true ->
      existsb is_ability (entry_lines E) = false ->
      existsb is_nature (entry_lines E) = false ->
      validatePokemon E = PInvalid (js "Missing ability")).
Proof.
  split; [apply validatePokemon_first_failure|].
  intros L I A _. rewrite validatePokemon_first_failure.
  unfold record_checks. cbn [first_failure passes reason].
  apply Nat.leb_le in L. unfold header in I. now rewrite L, I, A.
Qed.

Lemma validatePokemon_first_failure_wins_witness :
  (6 <= length (entry_lines no_ability_no_nature))%nat
  /\ includes (header no_ability_no_nature) (js "@") = true
  /\ existsb is_ability (entry_lines no_ability_no_nature) = false
  /\ existsb is_nature (entry_lines no_ability_no_nature) = false
  /\ validatePokemon no_ability_no_nature = PInvalid (js "Missing ability").
Proof.
  assert (L : (6 <= length (entry_lines no_ability_no_nature))%nat)
    by (apply Nat.leb_le; vm_compute; reflexivity).
  assert (I : includes (header no_ability_no_nature) (js "@") = true)
    by run.
  assert (A : existsb is_ability (entry_lines no_ability_no_nature) = false)
    by run.
  assert (N : existsb is_nature (entry_lines no_ability_no_nature) = false)
    by run.
  refine (conj L (conj I (conj A (conj N _)))).
  exact (proj2 (validatePokemon_first_failure_wins no_ability_no_nature) L I A N).
Defined.

(** C8, as the specification words it, fails: [no_moves] has no move line
    and its reason does not name the count 0. *)
Lemma no_moves_refutes_count_reason :
  ~ (move_count no_moves <> 4%nat ->
     exists r, validatePokemon no_moves = PInvalid r
               /\ includes r (dec (move_count no_moves)) = true).
Proof.
  intros H. destruct H as [r [V I]].
  - vm_compute. discriminate.
  - vm_compute in V. injection V as <-. vm_compute in I. discriminate.
Qed.

(** C8 (amended). An entry whose number of move lines differs from 4 is
    rejected.  When no earlier check fails, which requires one move line at
    least, the reason is ["Expected 4 moves, found n"] with [n] the number
    found.  An entry without any move line never gets that reason: once it
    passes the five presence checks before it, it is rejected for its
    missing moves. *)
Theorem validatePokemon_wrong_move_count (E : jsstring) :
  move_count E <> 4%nat ->
  pvalid (validatePokemon E) = false
  /\ (structure_ok E = true -> ev_line_sum E = 506 -> move_count E <> 0%nat ->
      validatePokemon E =
        PInvalid (js "Expected 4 moves, found " ++ dec (move_count E)))
  /\ (move_count E = 0%nat ->
      validatePokemon E <> PInvalid (js "Expected 4 moves, found " ++ dec 0)
      /\ (structure_ok E = true ->
          validatePokemon E = PInvalid (js "Missing moves"))).
Proof.
  intros M.
  rewrite validatePokemon_first_failure.
  unfold structure_ok, header, record_checks.
  cbn [first_failure passes reason].
  pose proof (existsb_filter_length is_move (entry_lines E)) as X.
  unfold move_count in *.
  apply Nat.eqb_neq in M. rewrite M.
  destruct (6 <=? length (entry_lines E))%nat;
    [|repeat split; try discriminate; intros; discriminate].
  destruct (includes (nth 0 (entry_lines E) []) (js "@"));
    [|repeat split; try discriminate; intros; discriminate].
  destruct (existsb is_ability (entry_lines E));
    [|repeat split; try discriminate; intros; discriminate].
  destruct (existsb is_ev (entry_lines E)) eqn:V;
    [|repeat split; try discriminate; intros; discriminate].
  destruct (existsb is_nature (entry_lines E));
    [|repeat split; try discriminate; intros; discriminate].
  rewrite (ev_check_sum E V), X. cbn [andb].
  split; [|split].
  - destruct (length (filter is_move (entry_lines E)) =? 0)%nat;
      destruct (ev_line_sum E =? 506); reflexivity.
  - intros _ S Z. apply N.eqb_eq in S. apply Nat.eqb_neq in Z.
    now rewrite S, Z.
  - intros Z. rewrite Z. cbn [Nat.eqb negb verdict].
    split; [discriminate|reflexivity].
Qed.

Lemma validatePokemon_wrong_move_count_witness :
  move_count three_moves <> 4%nat
  /\ structure_ok three_moves = true
  /\ ev_line_sum three_moves = 506
  /\ move_count three_moves <> 0%nat
  /\ validatePokemon three_moves = PInvalid (js "Expected 4 moves, found 3")
  /\ move_count no_moves = 0%nat
  /\ structure_ok no_moves = true
  /\ validatePokemon no_moves = PInvalid (js "Missing moves").
Proof.
  assert (M : move_count three_moves <> 4%nat) by (vm_compute; discriminate).
  assert (M' : move_count no_moves <> 4%nat) by (vm_compute; discriminate).
  assert (Z : move_count three_moves <> 0%nat) by (vm_compute; discriminate).
  assert (Z' : move_count no_moves = 0%nat) by run.
  assert (S : structure_ok three_moves = true) by run.
  assert (S' : structure_ok no_moves = true) by run.
  assert (V : ev_line_sum three_moves = 506) by run.
  refine (conj M (conj S (conj V (conj Z (conj _ (conj Z' (conj S' _))))))).
  - exact (proj1 (proj2 (validatePokemon_wrong_move_count three_moves M)) S V Z).
  - exact (proj2 (proj2 (proj2 (validatePokemon_wrong_move_count no_moves M'))
                   Z') S').
Defined.

(** C9, as the specification words it, fails: [short_entry] has fewer than
    6 lines and its reason is ["Pokemon entry too short"], not the reason
    the specification gives. *)
Lemma short_entry_refutes_stated_reasons : ~ reasons_as_stated short_entry.
Proof.
  intros [H _].
  assert (V : validatePokemon short_entry = PInvalid (js "entry too short"))
    by (apply H; vm_compute; lia).
  vm_compute in V. discriminate.
Qed.

(** C9 (amended). Each presence check has its own reason, given when the
    check is the first to fail: ["Pokemon entry too short"] under 6 trimmed
    non-empty lines, then ["Missing item (@)"] when the header line has no
    item delimiter, ["Missing ability"] when no line starts with
    ["Ability:"], ["Missing EVs"] when no line starts with ["EVs:"],
    ["Missing nature"] when no line holds ["Nature"], and ["Missing moves"]
    when no line starts with the move marker. *)
Theorem validatePokemon_reasons (E : jsstring) :
  ((length (entry_lines E) < 6)%nat ->
     validatePokemon E = PInvalid (js "Pokemon entry too short"))
  /\ ((6 <= length (entry_lines E))%nat ->
      (includes (header E) (js "@") = false ->
         validatePokemon E = PInvalid (js "Missing item (@)"))
      /\ (includes (header E) (js "@") = true ->
          (existsb is_ability (entry_lines E) = false ->
             validatePokemon E = PInvalid (js "Missing ability"))
          /\ (existsb is_ability (entry_lines E) = true ->
              (existsb is_ev (entry_lines E) = false ->
                 validatePokemon E = PInvalid (js "Missing EVs"))
              /\ (existsb is_ev (entry_lines E) = true ->
                  (existsb is_nature (entry_lines E) = false ->
                     validatePokemon E = PInvalid (js "Missing nature"))
                  /\ (existsb is_nature (entry_lines E) = true ->
                      existsb is_move (entry_lines E) = false ->
                      validatePokemon E = PInvalid (js "Missing moves")))))).
Proof.
  rewrite validatePokemon_first_failure.
  unfold header, record_checks. cbn [first_failure passes reason].
  split.
  - intros L. apply Nat.leb_gt in L. now rewrite L.
  - intros L. apply Nat.leb_le in L. rewrite L.
    split; [now intros ->|]. intros ->.
    split; [now intros ->|]. intros ->.
    split; [now intros ->|]. intros ->.
    split; [now intros ->|]. intros -> ->. reflexivity.
Qed.

Lemma validatePokemon_reasons_witness :
  validatePokemon short_entry = PInvalid (js "Pokemon entry too short")
  /\ validatePokemon no_item = PInvalid (js "Missing item (@)")
  /\ validatePokemon no_ability = PInvalid (js "Missing ability")
  /\ validatePokemon no_evs = PInvalid (js "Missing EVs")
  /\ validatePokemon no_nature = PInvalid (js "Missing nature")
  /\ validatePokemon no_moves = PInvalid (js "Missing moves").
Proof.
  assert (L : forall E, (6 <=? length (entry_lines E))%nat = true ->
                        (6 <= length (entry_lines E))%nat)
    by (intros E; apply Nat.leb_le).
  refine (conj _ (conj _ (conj _ (conj _ (conj _ _))))).
  - apply (proj1 (validatePokemon_reasons short_entry)).
    apply Nat.leb_gt. run.
  - apply (proj2 (validatePokemon_reasons no_item)).
    + apply L. run.
    + run.
  - apply (proj2 (validatePokemon_reasons no_ability)).
    + apply L. run.
    + run.
    + run.
  - apply (proj2 (validatePokemon_reasons no_evs)).
    + apply L. run.
    + run.
    + run.
    + run.
  - apply (proj2 (validatePokemon_reasons no_nature)).
    + apply L. run.
    + run.
    + run.
    + run.
    + run.
  - apply (proj2 (validatePokemon_reasons no_moves)).
    + apply L. run.
    + run.
    + run.
    + run.
    + run.
    + run.
Defined.

(** ** Teams *)

Section TeamLoop.

Lemma details_from_cons (i n : nat) (e : jsstring) (es : list jsstring) :
  details_from i (S n) (e :: es) =
  mkDetail (i + 1) (validatePokemon e) :: details_from (i + 1) n es.
Proof.
  unfold details_from. cbn [seq combine map fst snd].
  now rewrite Nat.add_1_r.
Qed.

Lemma details_from_length (i n : nat) (es : list jsstring) :
  (n <= length es)%nat -> length (details_from i n es) = n.
Proof.
  intros L. unfold details_from.
  rewrite length_map, length_combine, length_seq. lia.
Qed.

(** The loop stops at the first entry that fails. *)
Lemma validateTeam_loop_failure (es : list jsstring) :
  forall (i k : nat) (acc : list Detail) (r : jsstring),
    (forall j, (j < k)%nat -> pvalid (validatePokemon (nth j es [])) = true) ->
    (k < length es)%nat ->
    validatePokemon (nth k es []) = PInvalid r ->
    validateTeam_loop i es acc =
    inl (TInvalid (js "Pokemon " ++ dec (i + k + 1) ++ js ": " ++ r)
                  (Some (acc ++ details_from i (k + 1) es))).
Proof.
  induction es as [|e es IH]; intros i k acc r P L F; [simpl in L; lia|].
  destruct k as [|k].
  - cbn [nth] in F. cbn [validateTeam_loop]. rewrite F.
    rewrite Nat.add_0_r. cbn [Nat.add]. rewrite details_from_cons, F.
    unfold details_from. reflexivity.
  - cbn [validateTeam_loop].
    pose proof (P 0%nat (Nat.lt_0_succ k)) as V. cbn [nth] in V.
    destruct (validatePokemon e) as [p|err] eqn:R; [|discriminate].
    rewrite (IH (i + 1)%nat k _ r).
    + replace (i + 1 + k + 1)%nat with (i + S k + 1)%nat by lia.
      rewrite <- app_assoc. cbn [app Nat.add].
      now rewrite details_from_cons, R.
    + intros j J. apply (P (S j)). lia.
    + simpl in L. lia.
    + exact F.
Qed.

(** The loop runs to its end when every entry passes. *)
Lemma validateTeam_loop_success (es : list jsstring) :
  forall (i : nat) (acc : list Detail),
    (forall e, In e es -> pvalid (validatePokemon e) = true) ->
    validateTeam_loop i es acc = inr (acc ++ details_from i (length es) es).
Proof.
  induction es as [|e es IH]; intros i acc P.
  - cbn. now rewrite app_nil_r.
  - cbn [validateTeam_loop length].
    pose proof (P e (or_introl eq_refl)) as V.
    destruct (validatePokemon e) as [p|err] eqn:R; [|discriminate].
    rewrite IH by (intros x X; apply P; now right).
    rewrite <- app_assoc. cbn [app].
    now rewrite details_from_cons, R.
Qed.

End TeamLoop.

(** C4. [validateTeam] takes as candidates the pieces of the text between
    two-line-feed separators that are not empty once trimmed; when their
    number is not 6 it answers invalid with the reason
    ["Expected 6 Pokemon, found n"], [n] being that number, and without any
    per-entry detail: no entry is evaluated.  The two-entry text of the
    tests gets ["Expected 6 Pokemon, found 2"]. *)
Theorem validateTeam_wrong_count (T : jsstring) :
  pokemonEntries T =
    filter (fun entry => truthy (trim entry)) (split T [nl; nl])
  /\ (length (pokemonEntries T) <> 6%nat ->
      validateTeam T =
        TInvalid (js "Expected 6 Pokemon, found "
                  ++ dec (length (pokemonEntries T))) None)
  /\ validateTeam sampleTeam = TInvalid (js "Expected 6 Pokemon, found 2") None.
Proof.
  split; [reflexivity|]. split; [|run].
  intros L. unfold validateTeam.
  apply Nat.eqb_neq in L. now rewrite L.
Qed.

Lemma validateTeam_wrong_count_witness :
  length (pokemonEntries sampleTeam) <> 6%nat
  /\ validateTeam sampleTeam =
       TInvalid (js "Expected 6 Pokemon, found "
                 ++ dec (length (pokemonEntries sampleTeam))) None.
Proof.
  assert (L : length (pokemonEntries sampleTeam) <> 6%nat)
    by (vm_compute; discriminate).
  exact (conj L (proj1 (proj2 (validateTeam_wrong_count sampleTeam)) L)).
Defined.

(** C5. On a text with exactly 6 candidates [validateTeam] evaluates them
    in order.  If candidate [k + 1] is the first that [validatePokemon]
    rejects, with reason [r], the answer is invalid with the reason
    ["Pokemon k+1: r"] and the details of the first [k + 1] candidates, the
    rejected one last and none after it.  If all 6 pass, the answer is valid
    with [pokemon_count] 6 and the details of all 6. *)
Theorem validateTeam_six_entries (T : jsstring) :
  length (pokemonEntries T) = 6%nat ->
  (forall (k : nat) (r : jsstring),
      (forall j, (j < k)%nat ->
                 pvalid (validatePokemon (nth j (pokemonEntries T) [])) = true) ->
      (k < 6)%nat ->
      validatePokemon (nth k (pokemonEntries T) []) = PInvalid r ->
      validateTeam T =
        TInvalid (js "Pokemon " ++ dec (k + 1) ++ js ": " ++ r)
                 (Some (details_upto (k + 1) (pokemonEntries T)))
      /\ length (details_upto (k + 1) (pokemonEntries T)) = (k + 1)%nat)
  /\ ((forall e, In e (pokemonEntries T) -> pvalid (validatePokemon e) = true) ->
      validateTeam T = TValid 6 (details_upto 6 (pokemonEntries T))).
Proof.
  intros L. split.
  - intros k r P K F. split.
    + unfold validateTeam. rewrite L. cbn [Nat.eqb negb].
      rewrite (validateTeam_loop_failure _ 0%nat k [] r P) by (rewrite ?L; assumption).
      reflexivity.
    + apply details_from_length. lia.
  - intros P. unfold validateTeam. rewrite L. cbn [Nat.eqb negb].
    rewrite (validateTeam_loop_success _ 0%nat [] P), L. reflexivity.
Qed.

Lemma validateTeam_six_entries_witness :
  length (pokemonEntries team6_bad3) = 6%nat
  /\ validateTeam team6_bad3 =
       TInvalid (js "Pokemon 3: Invalid EV spread: 252 Atk / 4 SpD / 252 Spe")
                (Some (details_upto 3 (pokemonEntries team6_bad3)))
  /\ length (pokemonEntries team6) = 6%nat
  /\ validateTeam team6 = TValid 6 (details_upto 6 (pokemonEntries team6)).
Proof.
  assert (L : length (pokemonEntries team6_bad3) = 6%nat)
    by run.
  assert (L' : length (pokemonEntries team6) = 6%nat)
    by run.
  refine (conj L (conj _ (conj L' _))).
  - refine (proj1 (proj1 (validateTeam_six_entries team6_bad3 L) 2%nat
             (js "Invalid EV spread: 252 Atk / 4 SpD / 252 Spe") _ _ _)).
    + intros j J. destruct j as [|[|j]]; [run ..|lia].
    + lia.
    + run.
  - apply (proj2 (validateTeam_six_entries team6 L')).
    intros e I. vm_compute in I.
    repeat (destruct I as [<-|I]; [run|]).
    destruct I.
Defined.

(** C3. On a team text that [validateTeam] accepts, [validateAndFixTeam]
    returns the text itself. *)
Theorem validateAndFixTeam_valid_unchanged (T format : jsstring) :
  tvalid (validateTeam T) = true -> validateAndFixTeam T format = T.
Proof. intros V. unfold validateAndFixTeam. now rewrite V. Qed.

Lemma validateAndFixTeam_valid_unchanged_witness :
  tvalid (validateTeam team6) = true
  /\ validateAndFixTeam team6 (js "ou") = team6.
Proof.
  assert (V : tvalid (validateTeam team6) = true) by run.
  exact (conj V (validateAndFixTeam_valid_unchanged team6 (js "ou") V)).
Defined.

(** ** Lines and separators *)

Section Lines.

Lemma pieces_nonempty (p : char -> bool) (s : jsstring) : pieces p s <> [].
Proof.
  destruct s as [|c r]; simpl; [discriminate|].
  destruct (p c); [discriminate|].
  destruct (pieces p r); discriminate.
Qed.

Lemma split_nl_pieces (s : jsstring) :
  split s [nl] = pieces (fun c => c =? nl) s.
Proof.
  unfold split. induction s as [|c r IH]; [reflexivity|].
  cbn [split_from startsWith length Nat.sub pieces].
  rewrite andb_true_r, IH. reflexivity.
Qed.

Lemma pieces_app (p : char -> bool) (a b : jsstring) (c : char) :
  p c = true -> pieces p (a ++ c :: b) = pieces p a ++ pieces p b.
Proof.
  intros C. induction a as [|x a IH]; cbn [app pieces].
  - now rewrite C.
  - rewrite IH. destruct (p x); [reflexivity|].
    destruct (pieces p a) eqn:E; [|reflexivity].
    now apply pieces_nonempty in E.
Qed.

Lemma pieces_whole (p : char -> bool) (s : jsstring) :
  Forall (fun c => p c = false) s -> pieces p s = [s].
Proof.
  induction 1 as [|c r C _ IH]; cbn [pieces]; [reflexivity|].
  now rewrite C, IH.
Qed.

Lemma pieces_free (p : char -> bool) (s : jsstring) :
  Forall (Forall (fun c => p c = false)) (pieces p s).
Proof.
  induction s as [|c r IH]; cbn [pieces].
  - repeat constructor.
  - destruct (p c) eqn:C; [now constructor|].
    destruct (pieces p r) as [|x more]; [repeat constructor; assumption|].
    inversion IH; subst. constructor; [now constructor|assumption].
Qed.

Lemma trimmed_lines_app (a b : jsstring) :
  trimmed_lines (a ++ nl :: b) = trimmed_lines a ++ trimmed_lines b.
Proof.
  unfold trimmed_lines. rewrite !split_nl_pieces.
  rewrite pieces_app by reflexivity.
  now rewrite map_app, filter_app.
Qed.

Lemma trimmed_lines_nil : trimmed_lines [] = [].
Proof. reflexivity. Qed.

Lemma trimmed_lines_clean (l : jsstring) :
  clean_line l -> trimmed_lines l = [l].
Proof.
  intros [T [I F]]. unfold trimmed_lines.
  rewrite split_nl_pieces, pieces_whole by exact F.
  cbn [map filter]. now rewrite I, T.
Qed.

Lemma trimmed_lines_join_clean (cur : list jsstring) :
  Forall clean_line cur -> trimmed_lines (join cur [nl]) = cur.
Proof.
  induction 1 as [|l cur C _ IH]; [reflexivity|].
  destruct cur as [|l' cur].
  - now apply trimmed_lines_clean.
  - change (join (l :: l' :: cur) [nl])
      with (l ++ nl :: join (l' :: cur) [nl]).
    now rewrite trimmed_lines_app, IH, trimmed_lines_clean.
Qed.

Lemma trimmed_lines_join_entries (vt : list jsstring) :
  trimmed_lines (join vt [nl; nl]) = concat (map trimmed_lines vt).
Proof.
  induction vt as [|e vt IH]; [reflexivity|].
  destruct vt as [|e' vt].
  - cbn [join map concat]. now rewrite app_nil_r.
  - change (join (e :: e' :: vt) [nl; nl])
      with (e ++ nl :: ([] ++ nl :: join (e' :: vt) [nl; nl])).
    rewrite !trimmed_lines_app, IH, trimmed_lines_nil. reflexivity.
Qed.

End Lines.

Section TrimTwice.

Lemma trimStart_head (s : jsstring) :
  match trimStart s with
  | [] => True
  | c :: _ => is_ws c = false
  end.
Proof.
  induction s as [|c r IH]; simpl; [exact I|].
  destruct (is_ws c) eqn:W; [exact IH|exact W].
Qed.

Lemma trimStart_fixed (s : jsstring) :
  match s with
  | [] => True
  | c :: _ => is_ws c = false
  end -> trimStart s = s.
Proof. destruct s as [|c r]; simpl; [reflexivity|]. now intros ->. Qed.

Lemma trimStart_twice (s : jsstring) : trimStart (trimStart s) = trimStart s.
Proof. apply trimStart_fixed, trimStart_head. Qed.

Lemma trimEnd_twice (s : jsstring) : trimEnd (trimEnd s) = trimEnd s.
Proof.
  unfold trimEnd. now rewrite rev_involutive, trimStart_twice.
Qed.

Lemma trimEnd_keeps_head (s : jsstring) :
  trimStart s = s -> trimStart (trimEnd s) = trimEnd s.
Proof.
  intros H. apply trimStart_fixed.
  destruct (trimEnd_decompose s) as [q [E Q]].
  pose proof (trimStart_head s) as Hd. rewrite H in Hd.
  destruct (trimEnd s) as [|c t]; [exact I|].
  rewrite E in Hd. exact Hd.
Qed.

Lemma trim_twice (s : jsstring) : trim (trim s) = trim s.
Proof.
  unfold trim.
  rewrite (trimEnd_keeps_head (trimStart s)) by apply trimStart_twice.
  apply trimEnd_twice.
Qed.

Lemma trim_Forall (P : char -> Prop) (s : jsstring) :
  Forall P s -> Forall P (trim s).
Proof.
  intros F. destruct (trim_decompose s) as [p [q [E _]]].
  rewrite E in F. apply Forall_app in F. destruct F as [_ F].
  apply Forall_app in F. now destruct F.
Qed.

Lemma trim_clean (line : jsstring) :
  Forall (fun c => (c =? nl) = false) line ->
  truthy (trim line) = true -> clean_line (trim line).
Proof.
  intros F T. split; [exact T|]. split; [apply trim_twice|].
  now apply trim_Forall.
Qed.

End TrimTwice.

Section Repair.

Lemma fix_step_inv (st : FixState) (seen : list jsstring) (line : jsstring) :
  Forall (fun c => (c =? nl) = false) line ->
  fix_inv st seen ->
  fix_inv (fix_step st line) (seen ++ filter truthy [trim line]).
Proof.
  intros F [C S]. unfold fix_step. cbn [filter].
  destruct (truthy (trim line)) eqn:T; cbn [negb].
  - pose proof (trim_clean line F T) as K.
    destruct (includes (trim line) (js "@")).
    + destruct (0 <? length (currentPokemon st))%nat eqn:L;
        (split; cbn [currentPokemon validatedTeam];
         [constructor; [exact K|constructor]|]).
      * rewrite map_app, concat_app. cbn [map concat].
        rewrite app_nil_r, trimmed_lines_join_clean by exact C.
        now rewrite S.
      * apply Nat.ltb_ge in L.
        destruct (currentPokemon st); [|simpl in L; lia].
        now rewrite <- S, app_nil_r.
    + split; cbn [currentPokemon validatedTeam].
      * apply Forall_app. split; [exact C|constructor; [exact K|constructor]].
      * now rewrite <- S, app_assoc.
  - rewrite app_nil_r.
    destruct (0 <? length (currentPokemon st))%nat eqn:L.
    + split; cbn [currentPokemon validatedTeam]; [constructor|].
      rewrite map_app, concat_app. cbn [map concat].
      rewrite !app_nil_r, trimmed_lines_join_clean by exact C.
      exact S.
    + now split.
Qed.

Lemma fix_fold_inv (lines : list jsstring) :
  forall (st : FixState) (seen : list jsstring),
    Forall (Forall (fun c => (c =? nl) = false)) lines ->
    fix_inv st seen ->
    fix_inv (fold_left fix_step lines st)
            (seen ++ filter truthy (map trim lines)).
Proof.
  induction lines as [|line lines IH]; intros st seen F H.
  - cbn. now rewrite app_nil_r.
  - inversion F as [|? ? F1 F2]; subst.
    cbn [fold_left map].
    change (trim line :: map trim lines) with ([trim line] ++ map trim lines).
    rewrite filter_app, app_assoc. apply IH; [exact F2|].
    now apply fix_step_inv.
Qed.

Lemma fix_finish_lines (st : FixState) (seen : list jsstring) :
  fix_inv st seen ->
  concat (map trimmed_lines (validatedTeam (fix_finish st))) = seen.
Proof.
  intros [C S]. unfold fix_finish.
  destruct (0 <? length (currentPokemon st))%nat eqn:L;
    cbn [validatedTeam].
  - rewrite map_app, concat_app. cbn [map concat].
    now rewrite app_nil_r, trimmed_lines_join_clean by exact C.
  - apply Nat.ltb_ge in L.
    destruct (currentPokemon st); [|simpl in L; lia].
    now rewrite app_nil_r in S.
Qed.

(** The repair pass keeps the trimmed non-empty lines and their order. *)
Lemma validateAndFixTeam_trimmed_lines (T format : jsstring) :
  trimmed_lines (validateAndFixTeam T format) = trimmed_lines T.
Proof.
  unfold validateAndFixTeam.
  destruct (tvalid (validateTeam T)); [reflexivity|].
  rewrite trimmed_lines_join_entries.
  apply fix_finish_lines.
  apply (fix_fold_inv (split T [nl]) (mkFixState 0 [] []) []).
  - rewrite split_nl_pieces. apply pieces_free.
  - split; [constructor|reflexivity].
Qed.

End Repair.

(** C2, as the specification words it, fails: the only line of
    ["Flygon @ Loaded Dice  "] ends with two spaces and comes out of the
    repair without them. *)
Lemma trailing_spaces_refute_line_preservation :
  ~ Permutation
      (nonblank_lines (validateAndFixTeam (js "Flygon @ Loaded Dice  ") []))
      (nonblank_lines (js "Flygon @ Loaded Dice  ")).
Proof.
  intros P. vm_compute in P.
  apply Permutation_length_1 in P. discriminate.
Qed.

(** C2 (amended). The repair pass keeps the content of the lines once
    trimmed: the trimmed non-blank lines of [validateAndFixTeam T] are those
    of [T], in the same order and so as multisets; nothing is made up and
    nothing is lost but white space around a line. *)
Theorem validateAndFixTeam_preserves_trimmed_lines (T format : jsstring) :
  trimmed_lines (validateAndFixTeam T format) = trimmed_lines T
  /\ Permutation (trimmed_lines (validateAndFixTeam T format))
                 (trimmed_lines T).
Proof.
  split; [apply validateAndFixTeam_trimmed_lines|].
  now rewrite validateAndFixTeam_trimmed_lines.
Qed.

(** ** Blank-line separators *)

Section Separators.

Lemma startsWith_cons (c a : char) (s p : jsstring) :
  startsWith (c :: s) (a :: p) = (c =? a) && startsWith s p.
Proof. reflexivity. Qed.

Lemma startsWith_nil (s : jsstring) : startsWith s [] = true.
Proof. reflexivity. Qed.

Lemma includes_cons (c : char) (s p : jsstring) :
  includes (c :: s) p = startsWith (c :: s) p || includes s p.
Proof. reflexivity. Qed.

Lemma truthy_trimStart (s : jsstring) :
  truthy (trimStart s) = negb (forallb is_ws s).
Proof.
  induction s as [|c r IH]; simpl; [reflexivity|].
  destruct (is_ws c); [exact IH|reflexivity].
Qed.

Lemma forallb_trimStart (s : jsstring) :
  forallb is_ws (trimStart s) = forallb is_ws s.
Proof.
  induction s as [|c r IH]; simpl; [reflexivity|].
  destruct (is_ws c) eqn:W; simpl; [exact IH|now rewrite W].
Qed.

Lemma forallb_rev (f : char -> bool) (l : jsstring) :
  forallb f (rev l) = forallb f l.
Proof.
  induction l as [|c l IH]; simpl; [reflexivity|].
  rewrite forallb_app, IH. simpl. rewrite andb_true_r. apply andb_comm.
Qed.

Lemma truthy_rev (s : jsstring) : truthy (rev s) = truthy s.
Proof.
  destruct s as [|c s]; simpl; [reflexivity|].
  destruct (rev s ++ [c]) eqn:E; [|reflexivity].
  apply app_eq_nil in E. destruct E; discriminate.
Qed.

Lemma truthy_trim (s : jsstring) : truthy (trim s) = negb (forallb is_ws s).
Proof.
  unfold trim, trimEnd.
  now rewrite truthy_rev, truthy_trimStart, forallb_rev, forallb_trimStart.
Qed.

Lemma truthy_trim_app (a x : jsstring) :
  truthy (trim a) = true -> truthy (trim (a ++ x)) = true.
Proof.
  rewrite !truthy_trim, forallb_app.
  destruct (forallb is_ws a); [discriminate|reflexivity].
Qed.

Lemma truthy_trim_nonempty (a : jsstring) : truthy (trim a) = true -> a <> [].
Proof. intros H ->. discriminate. Qed.

Lemma endsWith_cons (c : char) (u : jsstring) :
  u <> [] -> endsWith (c :: u) [nl] = endsWith u [nl].
Proof.
  intros U. unfold endsWith. cbn [rev].
  destruct (rev u) as [|x r] eqn:E.
  - apply (f_equal (@rev char)) in E. rewrite rev_involutive in E.
    contradiction.
  - reflexivity.
Qed.

Lemma endsWith_app (x b : jsstring) :
  b <> [] -> endsWith (x ++ b) [nl] = endsWith b [nl].
Proof.
  intros B. unfold endsWith. rewrite rev_app_distr.
  destruct (rev b) as [|c r] eqn:E.
  - apply (f_equal (@rev char)) in E. rewrite rev_involutive in E.
    contradiction.
  - reflexivity.
Qed.

Lemma endsWith_free (w : jsstring) :
  Forall (fun c => c <> nl) w -> endsWith w [nl] = false.
Proof.
  intros F. unfold endsWith. apply Forall_rev in F.
  destruct (rev w) as [|c r]; [reflexivity|].
  inversion F as [|? ? C _]; subst.
  cbn [rev app]. rewrite startsWith_cons.
  apply N.eqb_neq in C. now rewrite C.
Qed.

Lemma includes_free (w : jsstring) :
  Forall (fun c => c <> nl) w -> includes w [nl; nl] = false.
Proof.
  induction 1 as [|c r C _ IH]; [reflexivity|].
  rewrite includes_cons, startsWith_cons, IH.
  apply N.eqb_neq in C. now rewrite C.
Qed.

(** Two texts without a separator joined where no separator can form. *)
Lemma includes_nn_app (x y : jsstring) :
  includes x [nl; nl] = false ->
  includes y [nl; nl] = false ->
  endsWith x [nl] = false \/ startsWith y [nl] = false ->
  includes (x ++ y) [nl; nl] = false.
Proof.
  induction x as [|c x IH]; intros X Y J; [exact Y|].
  rewrite includes_cons in X. apply orb_false_iff in X. destruct X as [X1 X2].
  cbn [app]. rewrite includes_cons. apply orb_false_iff. split.
  - destruct x as [|d x].
    + cbn [app]. rewrite startsWith_cons.
      destruct J as [J|J].
      * cbn in J. now rewrite andb_true_r in J; rewrite J.
      * rewrite J. apply andb_false_r.
    + exact X1.
  - apply IH; [exact X2|exact Y|].
    destruct J as [J|J]; [left|now right].
    destruct x as [|d x]; [reflexivity|].
    now rewrite endsWith_cons in J.
Qed.

Lemma split_nn_whole (u : jsstring) :
  includes u [nl; nl] = false -> split u [nl; nl] = [u].
Proof.
  unfold split. induction u as [|c u IH]; intros H; [reflexivity|].
  rewrite includes_cons in H. apply orb_false_iff in H. destruct H as [H1 H2].
  cbn [split_from]. now rewrite H1, IH.
Qed.

Lemma split_nn_cons (u v : jsstring) :
  includes u [nl; nl] = false ->
  endsWith u [nl] = false ->
  split (u ++ [nl; nl] ++ v) [nl; nl] = u :: split v [nl; nl].
Proof.
  unfold split. induction u as [|c u IH]; intros H E; [reflexivity|].
  assert (S : startsWith ((c :: u) ++ [nl; nl] ++ v) [nl; nl] = false).
  { rewrite includes_cons in H. apply orb_false_iff in H. destruct H as [H _].
    destruct u as [|d u]; [|exact H].
    cbn in E. rewrite andb_true_r in E.
    cbn [app]. rewrite startsWith_cons. now rewrite E. }
  rewrite includes_cons in H. apply orb_false_iff in H. destruct H as [_ H].
  change ((c :: u) ++ [nl; nl] ++ v) with (c :: (u ++ [nl; nl] ++ v)) in *.
  cbn [split_from]. rewrite S, IH; [reflexivity|exact H|].
  destruct u as [|d u]; [reflexivity|].
  now rewrite endsWith_cons in E.
Qed.

Lemma split_join_blocks (es : list jsstring) :
  es <> [] -> Forall block es -> split (join es [nl; nl]) [nl; nl] = es.
Proof.
  induction es as [|e es IH]; [contradiction|]. intros _ F.
  inversion F as [|? ? [_ [B1 [_ B2]]] F']; subst.
  destruct es as [|e' es].
  - now apply split_nn_whole.
  - change (join (e :: e' :: es) [nl; nl])
      with (e ++ [nl; nl] ++ join (e' :: es) [nl; nl]).
    rewrite split_nn_cons by assumption.
    f_equal. apply IH; [discriminate|exact F'].
Qed.

Lemma pokemonEntries_join_blocks (es : list jsstring) :
  es <> [] -> Forall block es -> pokemonEntries (join es [nl; nl]) = es.
Proof.
  intros N F. unfold pokemonEntries. rewrite split_join_blocks by assumption.
  clear N. induction F as [|e es [T _] _ IH]; [reflexivity|].
  cbn [filter]. now rewrite T, IH.
Qed.

(** Two blocks with a blank line between them make one block. *)
Lemma block_merge (a b w : jsstring) :
  block a -> block b -> blank_line w -> block (a ++ [nl] ++ w ++ [nl] ++ b).
Proof.
  intros [Ta [Ia [Sa Ea]]] [Tb [Ib [Sb Eb]]] [Nw Fw].
  assert (Fw' : Forall (fun c => c <> nl) w)
    by (revert Fw; apply Forall_impl; now intros c [_ C]).
  cbn [app].
  assert (I1 : includes (nl :: b) [nl; nl] = false).
  { rewrite includes_cons, startsWith_cons, Sb, Ib. reflexivity. }
  assert (I2 : includes (w ++ nl :: b) [nl; nl] = false).
  { apply includes_nn_app; [now apply includes_free|exact I1|].
    left. now apply endsWith_free. }
  assert (S2 : startsWith (w ++ nl :: b) [nl] = false).
  { destruct Fw' as [|c r C _]; [contradiction|].
    cbn [app]. rewrite startsWith_cons. apply N.eqb_neq in C. now rewrite C. }
  assert (I3 : includes (nl :: w ++ nl :: b) [nl; nl] = false).
  { rewrite includes_cons, startsWith_cons, S2, I2. reflexivity. }
  split; [now apply truthy_trim_app|]. split; [|split].
  - apply includes_nn_app; [exact Ia|exact I3|now left].
  - pose proof (truthy_trim_nonempty a Ta) as Na.
    destruct a as [|c a]; [contradiction|].
    cbn [app]. rewrite startsWith_cons, startsWith_nil.
    now rewrite startsWith_cons, startsWith_nil in Sa.
  - replace (a ++ nl :: w ++ nl :: b) with ((a ++ nl :: w ++ [nl]) ++ b)
      by (rewrite <- !app_assoc; cbn [app]; now rewrite <- app_assoc).
    rewrite endsWith_app; [exact Eb|now apply truthy_trim_nonempty].
Qed.

End Separators.

(** C10. Only the exact sequence of two line feeds separates candidates.
    In a team text whose entries are set apart by blank lines, save two
    neighbours [a] and [b] set apart by a line [w] of white space only,
    [validateTeam] takes [a], [w] and [b] for one candidate, where the
    same entries set apart by empty lines are one candidate each; so a
    text of 6 entries with one such line has 5 candidates and is rejected
    with ["Expected 6 Pokemon, found 5"]. *)
Theorem validateTeam_blank_separator
    (es1 es2 : list jsstring) (a b w : jsstring) :
  Forall block es1 -> block a -> block b -> Forall block es2 ->
  blank_line w ->
  pokemonEntries (join (es1 ++ (a ++ [nl] ++ w ++ [nl] ++ b) :: es2) [nl; nl])
    = es1 ++ (a ++ [nl] ++ w ++ [nl] ++ b) :: es2
  /\ pokemonEntries (join (es1 ++ a :: b :: es2) [nl; nl])
     = es1 ++ a :: b :: es2
  /\ (length (es1 ++ a :: b :: es2) = 6%nat ->
      validateTeam
        (join (es1 ++ (a ++ [nl] ++ w ++ [nl] ++ b) :: es2) [nl; nl])
      = TInvalid (js "Expected 6 Pokemon, found 5") None).
Proof.
  intros F1 Ba Bb F2 W.
  pose proof (block_merge a b w Ba Bb W) as M.
  assert (E : pokemonEntries
                (join (es1 ++ (a ++ [nl] ++ w ++ [nl] ++ b) :: es2) [nl; nl])
              = es1 ++ (a ++ [nl] ++ w ++ [nl] ++ b) :: es2).
  { apply pokemonEntries_join_blocks.
    - intros X. apply app_eq_nil in X. destruct X; discriminate.
    - apply Forall_app. split; [exact F1|now constructor]. }
  split; [exact E|]. split.
  - apply pokemonEntries_join_blocks.
    + intros X. apply app_eq_nil in X. destruct X; discriminate.
    + apply Forall_app. split; [exact F1|]. constructor; [exact Ba|].
      now constructor.
  - intros L. unfold validateTeam. rewrite E.
    rewrite length_app in *. cbn [length] in *.
    replace (length es1 + S (length es2))%nat with 5%nat by lia.
    reflexivity.
Qed.

Lemma validateTeam_blank_separator_witness :
  Forall block [flygon; galvantula] /\ block flygon /\ block galvantula
  /\ blank_line (js " ")
  /\ length ([flygon; galvantula] ++ flygon :: galvantula
             :: [flygon; galvantula]) = 6%nat
  /\ validateTeam
       (join ([flygon; galvantula]
              ++ (flygon ++ [nl] ++ js " " ++ [nl] ++ galvantula)
              :: [flygon; galvantula]) [nl; nl])
     = TInvalid (js "Expected 6 Pokemon, found 5") None.
Proof.
  assert (Bf : block flygon) by (repeat split; run).
  assert (Bg : block galvantula) by (repeat split; run).
  assert (F : Forall block [flygon; galvantula])
    by (constructor; [exact Bf|constructor; [exact Bg|constructor]]).
  assert (W : blank_line (js " ")).
  { split; [discriminate|].
    constructor; [split; [reflexivity|discriminate]|constructor]. }
  refine (conj F (conj Bf (conj Bg (conj W (conj eq_refl _))))).
  exact (proj2 (proj2 (validateTeam_blank_separator
                         [flygon; galvantula] [flygon; galvantula]
                         flygon galvantula (js " ") F Bf Bg F W)) eq_refl).
Defined.

(** ** Further properties of the validators *)

Section SpreadSums.

Lemma maximal_digit_runs_app (a b : jsstring) (c : char) :
  is_digit c = false ->
  maximal_digit_runs (a ++ c :: b) = maximal_digit_runs a ++ maximal_digit_runs b.
Proof.
  intros C. unfold maximal_digit_runs.
  rewrite pieces_app by now rewrite C.
  apply filter_app.
Qed.

Lemma maximal_digit_runs_skip (p s : jsstring) :
  Forall (fun c => is_digit c = false) p ->
  maximal_digit_runs (p ++ s) = maximal_digit_runs s.
Proof.
  intros F. rewrite <- !scan_digits_runs. now apply scan_digits_skip_prefix.
Qed.

Lemma digit_sum_app (a b sep : jsstring) :
  sep <> [] -> Forall (fun c => is_digit c = false) sep ->
  digit_sum (a ++ sep ++ b) = digit_sum a + digit_sum b.
Proof.
  intros N F. destruct F as [|c sep C F]; [contradiction|].
  unfold digit_sum. cbn [app].
  rewrite maximal_digit_runs_app by exact C.
  rewrite maximal_digit_runs_skip by exact F.
  induction (maximal_digit_runs a) as [|r rs IH]; cbn [app fold_right].
  - reflexivity.
  - rewrite IH. lia.
Qed.

Lemma digit_sum_free (s : jsstring) :
  Forall (fun c => is_digit c = false) s -> digit_sum s = 0.
Proof.
  intros F. unfold digit_sum.
  rewrite <- (app_nil_r s), maximal_digit_runs_skip by exact F.
  reflexivity.
Qed.

End SpreadSums.

(** X1. A text without any decimal digit, the empty text among them, is
    never a valid spread: [validateEVSpread] answers [false]. *)
Theorem validateEVSpread_without_digits (s : jsstring) :
  Forall (fun c => is_digit c = false) s -> validateEVSpread s = false.
Proof.
  intros F. rewrite validateEVSpread_digit_sum, digit_sum_free by exact F.
  reflexivity.
Qed.

Lemma validateEVSpread_without_digits_witness :
  Forall (fun c => is_digit c = false) (js "max Atk / max Spe")
  /\ validateEVSpread (js "max Atk / max Spe") = false.
Proof.
  assert (F : Forall (fun c => is_digit c = false) (js "max Atk / max Spe"))
    by (repeat constructor).
  exact (conj F (validateEVSpread_without_digits _ F)).
Defined.

(** X2. The numbers of two parts of a spread set apart by a separator
    without digits add up, so the order of the parts is of no
    consequence: [validateEVSpread] gives the same answer on both orders. *)
Theorem validateEVSpread_parts_commute (a b sep : jsstring) :
  sep <> [] -> Forall (fun c => is_digit c = false) sep ->
  digit_sum (a ++ sep ++ b) = digit_sum a + digit_sum b
  /\ validateEVSpread (a ++ sep ++ b) = validateEVSpread (b ++ sep ++ a).
Proof.
  intros N F. split; [now apply digit_sum_app|].
  rewrite !validateEVSpread_digit_sum, !digit_sum_app by assumption.
  now rewrite N.add_comm.
Qed.

Lemma validateEVSpread_parts_commute_witness :
  js " / " <> []
  /\ Forall (fun c => is_digit c = false) (js " / ")
  /\ validateEVSpread (js "252 Atk" ++ js " / " ++ js "2 HP / 252 Spe")
     = validateEVSpread (js "2 HP / 252 Spe" ++ js " / " ++ js "252 Atk").
Proof.
  assert (N : js " / " <> []) by discriminate.
  assert (F : Forall (fun c => is_digit c = false) (js " / "))
    by (repeat constructor).
  exact (conj N (conj F (proj2 (validateEVSpread_parts_commute
                                  (js "252 Atk") (js "2 HP / 252 Spe")
                                  (js " / ") N F)))).
Defined.

(** X3. Not one spread of the table [COMMON_EV_SPREADS] passes
    [validateEVSpread]: the numbers of each of them sum to 508. *)
Theorem common_spreads_rejected :
  Forall (fun role =>
            Forall (fun spread => digit_sum spread = 508
                                  /\ validateEVSpread spread = false)
                   (snd role))
         COMMON_EV_SPREADS.
Proof.
  unfold COMMON_EV_SPREADS.
  repeat first [apply Forall_nil | apply Forall_cons | split]; run.
Qed.

Section EntryLines.

Lemma entry_lines_clean (E : jsstring) : Forall clean_line (entry_lines E).
Proof.
  unfold entry_lines. rewrite split_nl_pieces.
  pose proof (pieces_free (fun c => c =? nl) E) as F.
  induction F as [|l ls L _ IH]; cbn [map filter]; [constructor|].
  destruct (truthy (trim l)) eqn:T; [|exact IH].
  constructor; [now apply trim_clean|exact IH].
Qed.

Lemma entry_lines_join (E : jsstring) :
  entry_lines (join (entry_lines E) [nl]) = entry_lines E.
Proof. exact (trimmed_lines_join_clean _ (entry_lines_clean E)). Qed.

Lemma validatePokemon_same_lines (E E' : jsstring) :
  entry_lines E' = entry_lines E ->
  validatePokemon E' =
  match validatePokemon E with
  | PValid _ => PValid E'
  | PInvalid error => PInvalid error
  end.
Proof.
  intros H. rewrite !validatePokemon_first_failure, H.
  destruct (first_failure record_checks (entry_lines E)); reflexivity.
Qed.

Lemma filter_disjoint_length (f g h : jsstring -> bool) (ls : list jsstring) :
  (forall l, f l = true -> g l = false /\ h l = false) ->
  (forall l, g l = true -> h l = false) ->
  (length (filter f ls) + length (filter g ls) + length (filter h ls)
   <= length ls)%nat.
Proof.
  intros FG GH. induction ls as [|l ls IH]; cbn [filter length]; [lia|].
  destruct (f l) eqn:F.
  - destruct (FG l F) as [-> ->]. cbn [length]. lia.
  - destruct (g l) eqn:G.
    + rewrite (GH l G). cbn [length]. lia.
    + destruct (h l); cbn [length]; lia.
Qed.

Lemma is_ability_exclusive (l : jsstring) :
  is_ability l = true -> is_ev l = false /\ is_move l = false.
Proof.
  destruct l as [|c l]; [discriminate|].
  unfold is_ability, is_ev, is_move. intros H. cbn in H.
  apply andb_true_iff in H. destruct H as [H _].
  apply N.eqb_eq in H. subst c. split; reflexivity.
Qed.

Lemma is_ev_exclusive (l : jsstring) : is_ev l = true -> is_move l = false.
Proof.
  destruct l as [|c l]; [discriminate|].
  unfold is_ev, is_move. intros H. cbn in H.
  apply andb_true_iff in H. destruct H as [H _].
  apply N.eqb_eq in H. subst c. reflexivity.
Qed.

Lemma existsb_filter_pos (f : jsstring -> bool) (ls : list jsstring) :
  existsb f ls = true -> (1 <= length (filter f ls))%nat.
Proof.
  rewrite existsb_filter_length.
  destruct (length (filter f ls)); [discriminate|lia].
Qed.

Lemma record_ok_length_implied (E : jsstring) :
  record_ok E = record_ok_sans_length E.
Proof.
  unfold record_ok, record_ok_sans_length, move_count.
  destruct (6 <=? length (entry_lines E))%nat eqn:L; [reflexivity|].
  apply Nat.leb_gt in L. cbn [andb].
  destruct (includes (header E) (js "@")); [|reflexivity].
  destruct (existsb is_ability (entry_lines E)) eqn:A; [|reflexivity].
  destruct (existsb is_ev (entry_lines E)) eqn:V; [|reflexivity].
  destruct (existsb is_nature (entry_lines E)); [|reflexivity].
  destruct (length (filter is_move (entry_lines E)) =? 4)%nat eqn:M;
    [|reflexivity].
  apply Nat.eqb_eq in M.
  apply existsb_filter_pos in A. apply existsb_filter_pos in V.
  pose proof (filter_disjoint_length is_ability is_ev is_move (entry_lines E)
                is_ability_exclusive is_ev_exclusive).
  lia.
Qed.

End EntryLines.

(** X4. [validatePokemon] reads an entry through its trimmed non-empty
    lines only: a text with the same such lines gets the same verdict and
    the same reason.  Such is the text of these lines joined by line feeds,
    so blank lines, indentation and trailing spaces change nothing. *)
Theorem validatePokemon_reads_trimmed_lines (E : jsstring) :
  (forall E', entry_lines E' = entry_lines E ->
              validatePokemon E' =
              match validatePokemon E with
              | PValid _ => PValid E'
              | PInvalid error => PInvalid error
              end)
  /\ entry_lines (join (entry_lines E) [nl]) = entry_lines E.
Proof.
  split; [intros E'; apply validatePokemon_same_lines|apply entry_lines_join].
Qed.

Lemma validatePokemon_reads_trimmed_lines_witness :
  entry_lines (join (entry_lines flygon508) [nl]) = entry_lines flygon508
  /\ validatePokemon (join (entry_lines flygon508) [nl])
     = PInvalid (js "Invalid EV spread: 252 Atk / 4 SpD / 252 Spe").
Proof.
  assert (H : entry_lines (join (entry_lines flygon508) [nl])
              = entry_lines flygon508) by run.
  refine (conj H _).
  etransitivity;
    [exact (proj1 (validatePokemon_reads_trimmed_lines flygon508) _ H)|run].
Defined.

(** X5. The gate on the number of lines never decides alone: an entry with
    an ability line, an EVs line and four move lines has 6 lines at least,
    so [validatePokemon] accepts exactly the entries that meet the other
    conditions. *)
Theorem validatePokemon_length_gate_implied (E : jsstring) :
  pvalid (validatePokemon E) = record_ok_sans_length E
  /\ (existsb is_ability (entry_lines E) = true ->
      existsb is_ev (entry_lines E) = true ->
      move_count E = 4%nat ->
      (6 <= length (entry_lines E))%nat).
Proof.
  split.
  - rewrite <- record_ok_length_implied. apply validatePokemon_record_ok.
  - intros A V M. unfold move_count in M.
    apply existsb_filter_pos in A. apply existsb_filter_pos in V.
    pose proof (filter_disjoint_length is_ability is_ev is_move (entry_lines E)
                  is_ability_exclusive is_ev_exclusive).
    lia.
Qed.

Lemma validatePokemon_length_gate_implied_witness :
  existsb is_ability (entry_lines flygon) = true
  /\ existsb is_ev (entry_lines flygon) = true
  /\ move_count flygon = 4%nat
  /\ (6 <= length (entry_lines flygon))%nat.
Proof.
  assert (A : existsb is_ability (entry_lines flygon) = true) by run.
  assert (V : existsb is_ev (entry_lines flygon) = true) by run.
  assert (M : move_count flygon = 4%nat) by run.
  exact (conj A (conj V (conj M
    (proj2 (validatePokemon_length_gate_implied flygon) A V M)))).
Defined.

(** X6. When the presence checks pass and the numbers of the EV line do not
    sum to 506, the reason is ["Invalid EV spread: "] followed by the EV
    line without its prefix ["EVs:"], trimmed and otherwise untouched; the
    number of move lines is not looked at. *)
Theorem validatePokemon_ev_reason (E l : jsstring) :
  find is_ev (entry_lines E) = Some l ->
  structure_ok E = true ->
  existsb is_move (entry_lines E) = true ->
  digit_sum l <> 506 ->
  l = js "EVs:" ++ skipn 4 l
  /\ validatePokemon E = PInvalid (js "Invalid EV spread: " ++ trim (skipn 4 l)).
Proof.
  intros F S M D.
  pose proof (find_some _ _ F) as [_ V].
  split; [exact (startsWith_app l (js "EVs:") V)|].
  rewrite validatePokemon_first_failure.
  unfold structure_ok, header in S. unfold record_checks, ev_spread.
  cbn [first_failure passes reason].
  repeat (apply andb_true_iff in S; destruct S as [S ?]).
  repeat match goal with H : _ = true |- _ => rewrite H; clear H end.
  rewrite F, validateEVSpread_digit_sum.
  rewrite (replace_prefix l (js "EVs:") [] V) in *.
  pose proof (ev_spread_digit_sum l V) as X.
  rewrite (replace_prefix l (js "EVs:") [] V) in X.
  cbn [app length] in *. rewrite X.
  apply N.eqb_neq in D. now rewrite D.
Qed.

Lemma validatePokemon_ev_reason_witness :
  find is_ev (entry_lines flygon508)
    = Some (js "EVs: 252 Atk / 4 SpD / 252 Spe")
  /\ structure_ok flygon508 = true
  /\ existsb is_move (entry_lines flygon508) = true
  /\ digit_sum (js "EVs: 252 Atk / 4 SpD / 252 Spe") <> 506
  /\ validatePokemon flygon508
     = PInvalid (js "Invalid EV spread: "
                 ++ trim (skipn 4 (js "EVs: 252 Atk / 4 SpD / 252 Spe"))).
Proof.
  assert (F : find is_ev (entry_lines flygon508)
              = Some (js "EVs: 252 Atk / 4 SpD / 252 Spe")) by run.
  assert (S : structure_ok flygon508 = true) by run.
  assert (M : existsb is_move (entry_lines flygon508) = true) by run.
  assert (D : digit_sum (js "EVs: 252 Atk / 4 SpD / 252 Spe") <> 506)
    by (vm_compute; discriminate).
  exact (conj F (conj S (conj M (conj D
    (proj2 (validatePokemon_ev_reason flygon508 _ F S M D)))))).
Defined.

(** ** Further properties of the team validator *)

Section TeamVerdict.

Lemma validateTeam_loop_rejects (es : list jsstring) :
  forall (i : nat) (acc : list Detail),
    forallb (fun e => pvalid (validatePokemon e)) es = false ->
    exists error details,
      validateTeam_loop i es acc = inl (TInvalid error details).
Proof.
  induction es as [|e es IH]; intros i acc H; [discriminate|].
  cbn [forallb] in H. cbn [validateTeam_loop].
  destruct (validatePokemon e) as [p|err]; [|eauto].
  cbn [pvalid andb] in H. now apply IH.
Qed.

Lemma split_from_Forall (P : char -> Prop) (sep s : jsstring) :
  Forall P s -> forall k, Forall (Forall P) (split_from sep k s).
Proof.
  induction 1 as [|c r C F IH]; intros k; cbn [split_from].
  - repeat constructor.
  - destruct k as [|k]; [|apply IH].
    destruct (startsWith (c :: r) sep).
    + constructor; [constructor|apply IH].
    + specialize (IH 0%nat). destruct (split_from sep 0 r) as [|p more].
      * repeat constructor; assumption.
      * inversion IH; subst. constructor; [now constructor|assumption].
Qed.

Lemma blank_of_ws (l : jsstring) :
  Forall (fun c => is_ws c = true) l -> blank l.
Proof.
  intros F. unfold blank. rewrite truthy_trim.
  replace (forallb is_ws l) with true; [reflexivity|].
  symmetry. apply forallb_forall. now apply Forall_forall.
Qed.

Lemma pokemonEntries_blank_text (T : jsstring) :
  Forall (fun c => is_ws c = true) T -> pokemonEntries T = [].
Proof.
  intros F. unfold pokemonEntries, split.
  pose proof (split_from_Forall _ [nl; nl] T F 0%nat) as H.
  induction H as [|p ps P _ IH]; [reflexivity|].
  cbn [filter]. now rewrite (blank_of_ws p P).
Qed.

End TeamVerdict.

(** X7. [validateTeam] accepts a text if and only if the text has exactly
    6 candidates and [validatePokemon] accepts each of them. *)
Theorem validateTeam_accepts_iff (T : jsstring) :
  tvalid (validateTeam T)
  = (length (pokemonEntries T) =? 6)%nat
    && forallb (fun e => pvalid (validatePokemon e)) (pokemonEntries T).
Proof.
  unfold validateTeam.
  destruct (length (pokemonEntries T) =? 6)%nat; [|reflexivity].
  cbn [negb andb].
  destruct (forallb _ (pokemonEntries T)) eqn:A.
  - rewrite validateTeam_loop_success; [reflexivity|].
    intros e I. now apply (proj1 (forallb_forall _ _) A).
  - destruct (validateTeam_loop_rejects _ 0%nat [] A) as [err [d ->]].
    reflexivity.
Qed.

(** X8. A text of white space only, the empty text among them, has no
    candidate: [validateTeam] rejects it with
    ["Expected 6 Pokemon, found 0"]. *)
Theorem validateTeam_blank_text (T : jsstring) :
  Forall (fun c => is_ws c = true) T ->
  pokemonEntries T = []
  /\ validateTeam T = TInvalid (js "Expected 6 Pokemon, found 0") None.
Proof.
  intros F. pose proof (pokemonEntries_blank_text T F) as E.
  split; [exact E|]. unfold validateTeam. now rewrite E.
Qed.

Lemma validateTeam_blank_text_witness :
  Forall (fun c => is_ws c = true) [32; nl; nl; 9; nl]
  /\ validateTeam [32; nl; nl; 9; nl]
     = TInvalid (js "Expected 6 Pokemon, found 0") None.
Proof.
  assert (F : Forall (fun c => is_ws c = true) [32; nl; nl; 9; nl])
    by (repeat constructor).
  exact (conj F (proj2 (validateTeam_blank_text _ F))).
Defined.

(** ** The repair loop, segment by segment *)

Section RepairSegments.

Lemma flushed_closed (st : FixState) :
  currentPokemon st = [] -> flushed st = validatedTeam st.
Proof. intros C. unfold flushed, fix_finish. now rewrite C. Qed.

Lemma flushed_open (st : FixState) :
  currentPokemon st <> [] ->
  flushed st = validatedTeam st ++ [join (currentPokemon st) [nl]].
Proof.
  intros C. unfold flushed, fix_finish.
  destruct (currentPokemon st); [contradiction|reflexivity].
Qed.

Lemma fix_step_blank (st : FixState) (l : jsstring) :
  blank l ->
  flushed (fix_step st l) = flushed st /\ currentPokemon (fix_step st l) = [].
Proof.
  intros B. unfold blank in B. unfold fix_step. rewrite B. cbn [negb].
  destruct (currentPokemon st) as [|x cur] eqn:C.
  - cbn [length Nat.ltb Nat.leb]. now split.
  - cbn [length Nat.ltb Nat.leb]. split; [|reflexivity].
    rewrite (flushed_open st) by (rewrite C; discriminate).
    rewrite flushed_closed by reflexivity. now rewrite C.
Qed.

Lemma fix_step_head (st : FixState) (h : jsstring) :
  truthy (trim h) = true ->
  has_item h = true \/ currentPokemon st = [] ->
  validatedTeam (fix_step st h) = flushed st
  /\ currentPokemon (fix_step st h) = [trim h].
Proof.
  intros T H. unfold fix_step. rewrite T. cbn [negb].
  unfold has_item in H.
  destruct (includes (trim h) (js "@")) eqn:I.
  - destruct (currentPokemon st) as [|x cur] eqn:C;
      cbn [length Nat.ltb Nat.leb currentPokemon validatedTeam].
    + now rewrite flushed_closed.
    + rewrite flushed_open by (rewrite C; discriminate). now rewrite C.
  - destruct H as [H|H]; [discriminate|].
    cbn [currentPokemon validatedTeam].
    rewrite flushed_closed by exact H. now rewrite H.
Qed.

Lemma fix_step_tail (st : FixState) (l : jsstring) :
  truthy (trim l) = true -> has_item l = false ->
  validatedTeam (fix_step st l) = validatedTeam st
  /\ currentPokemon (fix_step st l) = currentPokemon st ++ [trim l].
Proof.
  intros T H. unfold fix_step. unfold has_item in H. rewrite T, H.
  now split.
Qed.

Lemma fold_blanks (bs : list jsstring) :
  forall st, Forall blank bs ->
    flushed (fold_left fix_step bs st) = flushed st
    /\ (bs <> [] \/ currentPokemon st = [] ->
        currentPokemon (fold_left fix_step bs st) = []).
Proof.
  induction bs as [|b bs IH]; intros st F; cbn [fold_left].
  - split; [reflexivity|]. intros [H|H]; [contradiction|exact H].
  - inversion F as [|? ? B F']; subst.
    destruct (fix_step_blank st b B) as [E C].
    destruct (IH (fix_step st b) F') as [E' C'].
    split; [now rewrite E'|]. intros _. apply C'. now right.
Qed.

Lemma fold_tail (rest : list jsstring) :
  forall st,
    Forall (fun l => truthy (trim l) = true /\ has_item l = false) rest ->
    validatedTeam (fold_left fix_step rest st) = validatedTeam st
    /\ currentPokemon (fold_left fix_step rest st)
       = currentPokemon st ++ map trim rest.
Proof.
  induction rest as [|l rest IH]; intros st F; cbn [fold_left map].
  - now rewrite app_nil_r.
  - inversion F as [|? ? [T H] F']; subst.
    destruct (fix_step_tail st l T H) as [V C].
    destruct (IH (fix_step st l) F') as [V' C'].
    rewrite V', C', V, C, <- app_assoc. now split.
Qed.

Lemma fold_segment (s : Segment) (st : FixState) :
  Forall blank (fst s) -> entry_shape (snd s) ->
  has_item (hd [] (snd s)) = true \/ fst s <> [] \/ currentPokemon st = [] ->
  flushed (fold_left fix_step (segment_lines s) st)
  = flushed st ++ [segment_entry s].
Proof.
  destruct s as [bs ls]. unfold segment_lines, segment_entry.
  cbn [fst snd]. intros B S H.
  destruct ls as [|h rest]; [destruct S|]. destruct S as [T R].
  rewrite fold_left_app. cbn [fold_left hd] in *.
  destruct (fold_blanks bs st B) as [E C].
  set (st1 := fold_left fix_step bs st) in *.
  assert (H1 : has_item h = true \/ currentPokemon st1 = []).
  { destruct H as [H|H]; [now left|right; now apply C]. }
  destruct (fix_step_head st1 h T H1) as [V K].
  destruct (fold_tail rest (fix_step st1 h) R) as [V' K'].
  rewrite flushed_open by (rewrite K', K; discriminate).
  now rewrite V', K', V, K, E.
Qed.

Lemma fold_segment_open (s : Segment) (st : FixState) :
  Forall blank (fst s) -> entry_shape (snd s) ->
  has_item (hd [] (snd s)) = true \/ fst s <> [] \/ currentPokemon st = [] ->
  currentPokemon (fold_left fix_step (segment_lines s) st) <> [].
Proof.
  destruct s as [bs ls]. unfold segment_lines. cbn [fst snd]. intros B S H.
  destruct ls as [|h rest]; [destruct S|]. destruct S as [T R].
  rewrite fold_left_app. cbn [fold_left hd] in *.
  destruct (fold_blanks bs st B) as [E C].
  set (st1 := fold_left fix_step bs st) in *.
  assert (H1 : has_item h = true \/ currentPokemon st1 = []).
  { destruct H as [H|H]; [now left|right; now apply C]. }
  destruct (fix_step_head st1 h T H1) as [V K].
  destruct (fold_tail rest (fix_step st1 h) R) as [V' K'].
  rewrite K', K. discriminate.
Qed.

Lemma fold_segments (segs : list Segment) :
  forall (fresh : bool) (st : FixState),
    segments_ok fresh segs ->
    (fresh = true -> currentPokemon st = []) ->
    flushed (fold_left fix_step (concat (map segment_lines segs)) st)
    = flushed st ++ map segment_entry segs.
Proof.
  induction segs as [|s segs IH]; intros fresh st O F.
  - cbn. now rewrite app_nil_r.
  - destruct O as [B [S [H O]]].
    cbn [map concat]. rewrite fold_left_app.
    assert (H' : has_item (hd [] (snd s)) = true \/ fst s <> []
                 \/ currentPokemon st = []).
    { destruct H as [H|[H|H]]; auto. }
    rewrite (IH false) by (assumption || discriminate).
    rewrite fold_segment by assumption.
    now rewrite <- app_assoc.
Qed.

(** The text the repair loop makes of lines read as segments. *)
Lemma repair_of_segments (lines trailing : list jsstring)
    (segs : list Segment) :
  lines = concat (map segment_lines segs) ++ trailing ->
  Forall blank trailing -> segments_ok true segs ->
  validatedTeam (fix_finish (fold_left fix_step lines (mkFixState 0 [] [])))
  = map segment_entry segs.
Proof.
  intros -> B O. rewrite fold_left_app.
  change (validatedTeam (fix_finish ?x)) with (flushed x).
  rewrite (proj1 (fold_blanks trailing _ B)).
  now rewrite (fold_segments segs true) by (assumption || reflexivity).
Qed.

(** Any lines can be read as segments. *)
Lemma segments_exist (lines : list jsstring) :
  exists segs trailing,
    lines = concat (map segment_lines segs) ++ trailing
    /\ Forall blank trailing /\ segments_ok true segs.
Proof.
  induction lines as [|l lines [segs [trailing [E [B O]]]]].
  - exists [], []. repeat split; constructor.
  - destruct (truthy (trim l)) eqn:T.
    + destruct segs as [|[bs ls] more].
      * exists [([], [l])], trailing. subst lines.
        split; [reflexivity|]. split; [exact B|].
        cbn. repeat split; auto.
      * destruct O as [Bs [S [H O]]]. cbn [fst snd] in *.
        destruct ls as [|h rest]; [destruct S|]. destruct S as [Th R].
        destruct bs as [|b bs].
        -- destruct (has_item h) eqn:I.
           ++ exists (([], [l]) :: ([], h :: rest) :: more), trailing.
              subst lines.
              split; [reflexivity|]. split; [exact B|].
              cbn [segments_ok fst snd entry_shape hd].
              repeat split; auto.
           ++ exists (([], l :: h :: rest) :: more), trailing.
              subst lines.
              split; [reflexivity|]. split; [exact B|].
              cbn [segments_ok fst snd entry_shape hd].
              repeat split; auto.
        -- exists (([], [l]) :: (b :: bs, h :: rest) :: more), trailing.
           subst lines.
           split; [reflexivity|]. split; [exact B|].
           cbn [segments_ok fst snd entry_shape hd].
           repeat split; auto. right. left. discriminate.
    + destruct segs as [|[bs ls] more].
      * exists [], (l :: trailing). subst lines.
        split; [reflexivity|]. split; [now constructor|exact I].
      * destruct O as [Bs [S [H O]]]. cbn [fst snd] in *.
        exists ((l :: bs, ls) :: more), trailing. subst lines.
        split; [reflexivity|]. split; [exact B|].
        cbn [segments_ok fst snd].
        split; [now constructor|]. split; [exact S|]. split; [|exact O].
        right. left. discriminate.
Qed.

End RepairSegments.

Section RepairedText.

Lemma split_join_lines (ls : list jsstring) :
  ls <> [] -> Forall (Forall (fun c => (c =? nl) = false)) ls ->
  split (join ls [nl]) [nl] = ls.
Proof.
  intros N F. rewrite split_nl_pieces.
  induction F as [|l ls L F IH]; [contradiction|].
  destruct ls as [|l' ls].
  - now apply pieces_whole.
  - change (join (l :: l' :: ls) [nl]) with (l ++ nl :: join (l' :: ls) [nl]).
    rewrite pieces_app by reflexivity.
    rewrite IH by discriminate. now rewrite pieces_whole.
Qed.

Lemma clean_line_free (l : jsstring) :
  clean_line l -> Forall (fun c => c <> nl) l.
Proof.
  intros [_ [_ F]]. revert F. apply Forall_impl.
  intros c C. now apply N.eqb_neq.
Qed.

Lemma clean_line_nonblank (l : jsstring) :
  clean_line l -> truthy (trim l) = true.
Proof. intros [T [I _]]. now rewrite I. Qed.

Lemma startsWith_app_l (a x : jsstring) :
  a <> [] -> startsWith (a ++ x) [nl] = startsWith a [nl].
Proof. destruct a; [contradiction|reflexivity]. Qed.

Lemma clean_line_start (l : jsstring) :
  clean_line l -> startsWith l [nl] = false.
Proof.
  intros [T [_ F]]. destruct l as [|c l]; [discriminate|].
  inversion F as [|? ? C _]; subst.
  rewrite startsWith_cons, C. reflexivity.
Qed.

Lemma clean_group_block (g : list jsstring) :
  g <> [] -> Forall clean_line g -> block (join g [nl]).
Proof.
  intros N F. induction F as [|l g L F IH]; [contradiction|].
  assert (Nl : l <> []) by (destruct L as [T _]; now destruct l).
  destruct g as [|l' g].
  - cbn [join]. split; [now apply clean_line_nonblank|].
    split; [apply includes_free; now apply clean_line_free|].
    split; [now apply clean_line_start|].
    apply endsWith_free. now apply clean_line_free.
  - change (join (l :: l' :: g) [nl]) with (l ++ nl :: join (l' :: g) [nl]).
    destruct IH as [Tg [Ig [Sg Eg]]]; [discriminate|].
    split; [apply truthy_trim_app; now apply clean_line_nonblank|].
    split; [|split].
    + apply includes_nn_app.
      * apply includes_free. now apply clean_line_free.
      * rewrite includes_cons, startsWith_cons, Sg, Ig. reflexivity.
      * left. apply endsWith_free. now apply clean_line_free.
    + rewrite startsWith_app_l by exact Nl. now apply clean_line_start.
    + change (l ++ nl :: join (l' :: g) [nl])
        with (l ++ [nl] ++ join (l' :: g) [nl]).
      rewrite app_assoc, endsWith_app; [exact Eg|].
      now apply truthy_trim_nonempty.
Qed.

Lemma clean_trim_id (g : list jsstring) :
  Forall clean_line g -> map trim g = g.
Proof.
  induction 1 as [|l g [_ [I _]] _ IH]; [reflexivity|].
  cbn [map]. now rewrite I, IH.
Qed.

(** The groups that the segments of nl-free lines give are good. *)
Lemma segments_groups (segs : list Segment) :
  forall fresh, segments_ok fresh segs ->
    Forall (fun s => Forall (Forall (fun c => (c =? nl) = false)) (snd s)) segs ->
    Forall good_group (map (fun s => map trim (snd s)) segs).
Proof.
  induction segs as [|[bs ls] segs IH]; intros fresh O F; [constructor|].
  destruct O as [_ [S [_ O]]]. inversion F as [|? ? L F']; subst.
  cbn [map snd] in *. constructor; [|now apply (IH false)].
  destruct ls as [|h rest]; [destruct S|]. destruct S as [T R].
  inversion L as [|? ? Lh Lr]; subst.
  split; [discriminate|]. split.
  - constructor; [now apply trim_clean|].
    clear - R Lr. induction R as [|l rest [Tl _] _ IH]; [constructor|].
    inversion Lr; subst. constructor; [now apply trim_clean|now apply IH].
  - cbn [map tl]. clear - R.
    induction R as [|l rest [_ Hl] _ IH]; [constructor|].
    cbn [map]. constructor; [exact Hl|exact IH].
Qed.

Lemma good_group_shape (g : list jsstring) :
  good_group g -> entry_shape g.
Proof.
  intros [N [C A]]. destruct g as [|h rest]; [contradiction|].
  inversion C as [|? ? Ch Cr]; subst. cbn [tl] in A.
  split; [now apply clean_line_nonblank|].
  clear - Cr A. induction Cr as [|l rest L _ IH]; [constructor|].
  inversion A; subst. constructor; [|now apply IH].
  split; [now apply clean_line_nonblank|].
  unfold has_item. destruct L as [_ [I _]]. now rewrite I.
Qed.

Lemma regrouped_ok (G : list (list jsstring)) :
  Forall good_group G -> segments_ok true (regrouped G).
Proof.
  intros F. destruct F as [|g G Hg F]; [exact I|].
  cbn [regrouped segments_ok fst snd].
  split; [constructor|]. split; [now apply good_group_shape|].
  split; [now right; right|].
  induction F as [|g' G Hg' F IH]; [exact I|].
  cbn [map segments_ok fst snd].
  split; [repeat constructor|]. split; [now apply good_group_shape|].
  split; [right; left; discriminate|exact IH].
Qed.

Lemma regrouped_entries (G : list (list jsstring)) :
  Forall good_group G ->
  map segment_entry (regrouped G) = map (fun g => join g [nl]) G.
Proof.
  intros F. destruct F as [|g G [_ [C _]] F]; [reflexivity|].
  cbn [regrouped map]. unfold segment_entry at 1. cbn [snd].
  rewrite (clean_trim_id g C). f_equal.
  induction F as [|g' G [_ [C' _]] _ IH]; [reflexivity|].
  cbn [map]. unfold segment_entry at 1. cbn [snd].
  now rewrite (clean_trim_id g' C'), IH.
Qed.

Lemma clean_group_free (g : list jsstring) :
  Forall clean_line g -> Forall (Forall (fun c => (c =? nl) = false)) g.
Proof. apply Forall_impl. now intros l [_ [_ F]]. Qed.

Lemma join_cons2 (x y sep : jsstring) (rest : list jsstring) :
  join (x :: y :: rest) sep = x ++ sep ++ join (y :: rest) sep.
Proof. reflexivity. Qed.

Lemma pieces_sep (p : char -> bool) (c : char) (b : jsstring) :
  p c = true -> pieces p (c :: b) = [] :: pieces p b.
Proof. intros C. cbn [pieces]. now rewrite C. Qed.

Lemma regrouped_lines (G : list (list jsstring)) :
  G <> [] -> Forall good_group G ->
  split (join (map (fun g => join g [nl]) G) [nl; nl]) [nl]
  = concat (map segment_lines (regrouped G)).
Proof.
  intros N F. destruct F as [|g G Hg F]; [contradiction|]. clear N.
  cbn [regrouped map concat]. unfold segment_lines at 1. cbn [fst snd app].
  revert g Hg. induction F as [|g' G Hg' F IH]; intros g [Ng [Cg _]].
  - cbn [map join concat]. rewrite app_nil_r.
    apply split_join_lines; [exact Ng|now apply clean_group_free].
  - cbn [map]. rewrite join_cons2. cbn [app].
    rewrite split_nl_pieces, pieces_app, pieces_sep by reflexivity.
    rewrite <- !split_nl_pieces.
    specialize (IH g' Hg'). cbn [map] in IH. rewrite IH.
    rewrite split_join_lines by (try exact Ng; now apply clean_group_free).
    reflexivity.
Qed.

(** What the repair returns on a text that [validateTeam] rejects. *)
Lemma repaired_groups (T format : jsstring) :
  tvalid (validateTeam T) = false ->
  exists G, Forall good_group G
            /\ validateAndFixTeam T format
               = join (map (fun g => join g [nl]) G) [nl; nl].
Proof.
  intros V. unfold validateAndFixTeam. rewrite V.
  destruct (segments_exist (split T [nl])) as [segs [trailing [E [B O]]]].
  exists (map (fun s => map trim (snd s)) segs). split.
  - apply (segments_groups segs true O).
    pose proof (pieces_free (fun c => c =? nl) T) as F.
    rewrite <- split_nl_pieces, E in F.
    apply Forall_app in F. destruct F as [F _].
    apply -> Forall_concat in F. apply -> Forall_map in F.
    revert F. apply Forall_impl. intros s F.
    unfold segment_lines in F. apply Forall_app in F. now destruct F.
  - rewrite (repair_of_segments _ trailing segs E B O).
    now rewrite map_map.
Qed.

Lemma repaired_entries (G : list (list jsstring)) :
  Forall good_group G ->
  pokemonEntries (join (map (fun g => join g [nl]) G) [nl; nl])
  = map (fun g => join g [nl]) G.
Proof.
  intros F. destruct G as [|g G]; [reflexivity|].
  apply pokemonEntries_join_blocks; [discriminate|].
  apply Forall_map. revert F. apply Forall_impl.
  intros g' [N [C _]]. now apply clean_group_block.
Qed.

End RepairedText.

Section RepairResults.

Lemma segments_free (T : jsstring) (segs : list Segment)
    (trailing : list jsstring) :
  split T [nl] = concat (map segment_lines segs) ++ trailing ->
  Forall (fun s => Forall (Forall (fun c => (c =? nl) = false)) (snd s)) segs.
Proof.
  intros E. pose proof (pieces_free (fun c => c =? nl) T) as F.
  rewrite <- split_nl_pieces, E in F.
  apply Forall_app in F. destruct F as [F _].
  apply -> Forall_concat in F. apply -> Forall_map in F.
  revert F. apply Forall_impl. intros s F.
  unfold segment_lines in F. apply Forall_app in F. now destruct F.
Qed.

Lemma entry_shape_lines (ls : list jsstring) :
  entry_shape ls -> filter truthy (map trim ls) = map trim ls.
Proof.
  destruct ls as [|h rest]; [intros []|]. intros [T R].
  cbn [map filter]. rewrite T. f_equal.
  induction R as [|l rest [Tl _] _ IH]; [reflexivity|].
  cbn [map filter]. now rewrite Tl, IH.
Qed.

(** The entry made of a segment is read as the lines of the segment are. *)
Lemma segment_entry_lines (ls : list jsstring) :
  entry_shape ls ->
  Forall (Forall (fun c => (c =? nl) = false)) ls ->
  entry_lines (join (map trim ls) [nl]) = entry_lines (join ls [nl]).
Proof.
  intros S F.
  assert (N : ls <> []) by (destruct ls; [destruct S|discriminate]).
  assert (C : Forall clean_line (map trim ls)).
  { destruct ls as [|h rest]; [destruct S|]. destruct S as [T R].
    inversion F as [|? ? Fh Fr]; subst. cbn [map].
    constructor; [now apply trim_clean|].
    clear - R Fr. induction R as [|l rest [Tl _] _ IH]; [constructor|].
    inversion Fr; subst. cbn [map].
    constructor; [now apply trim_clean|now apply IH]. }
  transitivity (map trim ls).
  - exact (trimmed_lines_join_clean _ C).
  - unfold entry_lines. rewrite split_join_lines by assumption.
    symmetry. now apply entry_shape_lines.
Qed.

Lemma segments_ok_shape (segs : list Segment) :
  forall (fresh : bool) (s : Segment),
    segments_ok fresh segs -> In s segs -> entry_shape (snd s).
Proof.
  induction segs as [|s' segs IH]; intros fresh s O I; [destruct I|].
  destruct O as [_ [S [_ O]]].
  destruct I as [->|I]; [exact S|now apply (IH false)].
Qed.

Lemma validateTeam_blank_rejected (T : jsstring) :
  Forall (fun c => is_ws c = true) T -> tvalid (validateTeam T) = false.
Proof.
  intros F. unfold validateTeam.
  now rewrite (pokemonEntries_blank_text T F).
Qed.

End RepairResults.

Section RunTogether.

Lemma flygon_shape : entry_shape (split flygon [nl]).
Proof.
  split; [run|].
  repeat (apply Forall_cons; [split; run|]). apply Forall_nil.
Qed.

Lemma galvantula_shape : entry_shape (split galvantula [nl]).
Proof.
  split; [run|].
  repeat (apply Forall_cons; [split; run|]). apply Forall_nil.
Qed.

Lemma run_together_rejected : tvalid (validateTeam run_together) = false.
Proof. run. Qed.

Lemma run_together_lines :
  split run_together [nl]
  = concat (map segment_lines run_together_segments) ++ [].
Proof. run. Qed.

Lemma run_together_ok : segments_ok true run_together_segments.
Proof.
  assert (Hf : has_item (hd [] (split flygon [nl])) = true) by run.
  assert (Hg : has_item (hd [] (split galvantula [nl])) = true) by run.
  pose proof flygon_shape. pose proof galvantula_shape.
  unfold run_together_segments. cbn [map segments_ok fst snd].
  repeat (split; [apply Forall_nil|]; split; [assumption|];
          split; [left; assumption|]).
  exact I.
Qed.

Lemma run_together_entries :
  Forall (fun s => pvalid (validatePokemon (join (snd s) [nl])) = true)
         run_together_segments.
Proof.
  unfold run_together_segments. cbn [map].
  repeat (apply Forall_cons; [run|]). apply Forall_nil.
Qed.

End RunTogether.

(** X9. The lines of any text can be read as segments, each made of blank
    lines and of the lines of one entry, which starts at a line with the
    item delimiter, after a blank line or at the first line of all, and
    goes on up to the next such start.  On a text that [validateTeam]
    rejects, [validateAndFixTeam] returns the entries of these segments,
    each with its lines trimmed and joined by line feeds, joined by blank
    lines. *)
Theorem validateAndFixTeam_resegments (T format : jsstring) :
  tvalid (validateTeam T) = false ->
  (exists segs trailing,
      split T [nl] = concat (map segment_lines segs) ++ trailing
      /\ Forall blank trailing /\ segments_ok true segs)
  /\ (forall segs trailing,
         split T [nl] = concat (map segment_lines segs) ++ trailing ->
         Forall blank trailing -> segments_ok true segs ->
         validateAndFixTeam T format
         = join (map segment_entry segs) [nl; nl]).
Proof.
  intros V. split; [apply segments_exist|].
  intros segs trailing E B O. unfold validateAndFixTeam. rewrite V.
  now rewrite (repair_of_segments _ trailing segs E B O).
Qed.

Lemma validateAndFixTeam_resegments_witness :
  tvalid (validateTeam run_together) = false
  /\ split run_together [nl]
     = concat (map segment_lines run_together_segments) ++ []
  /\ segments_ok true run_together_segments
  /\ validateAndFixTeam run_together (js "ou")
     = join (map segment_entry run_together_segments) [nl; nl].
Proof.
  exact (conj run_together_rejected (conj run_together_lines
    (conj run_together_ok
       (proj2 (validateAndFixTeam_resegments run_together (js "ou")
                 run_together_rejected)
          run_together_segments [] run_together_lines (Forall_nil _)
          run_together_ok)))).
Defined.

(** X10. The repair mends a team whose entries are only badly set apart.
    If the lines of a rejected text read as 6 segments and the lines of
    each segment, taken alone, make an entry that [validatePokemon]
    accepts, then [validateTeam] accepts what [validateAndFixTeam]
    returns. *)
Theorem validateAndFixTeam_repairs
    (T format : jsstring) (segs : list Segment) (trailing : list jsstring) :
  tvalid (validateTeam T) = false ->
  split T [nl] = concat (map segment_lines segs) ++ trailing ->
  Forall blank trailing -> segments_ok true segs ->
  length segs = 6%nat ->
  Forall (fun s => pvalid (validatePokemon (join (snd s) [nl])) = true) segs ->
  tvalid (validateTeam (validateAndFixTeam T format)) = true.
Proof.
  intros V E B O L A.
  unfold validateAndFixTeam at 1. rewrite V.
  rewrite (repair_of_segments _ trailing segs E B O).
  pose proof (segments_free T segs trailing E) as F.
  pose proof (segments_groups segs true O F) as G.
  assert (M : map segment_entry segs
              = map (fun g => join g [nl])
                    (map (fun s => map trim (snd s)) segs))
    by now rewrite map_map.
  unfold validateTeam. rewrite M, (repaired_entries _ G), <- M.
  rewrite length_map, L. cbn [Nat.eqb negb].
  rewrite validateTeam_loop_success; [reflexivity|].
  intros e I. apply in_map_iff in I. destruct I as [s [<- I]].
  assert (Ss : entry_shape (snd s)
               /\ Forall (Forall (fun c => (c =? nl) = false)) (snd s)
               /\ pvalid (validatePokemon (join (snd s) [nl])) = true).
  { split; [exact (segments_ok_shape segs true s O I)|].
    split; [exact (proj1 (Forall_forall _ _) F s I)|].
    exact (proj1 (Forall_forall _ _) A s I). }
  destruct Ss as [S [Fs As]].
  rewrite (validatePokemon_same_lines (join (snd s) [nl]) (segment_entry s))
    by now apply segment_entry_lines.
  destruct (validatePokemon (join (snd s) [nl])); [reflexivity|discriminate].
Qed.

Lemma validateAndFixTeam_repairs_witness :
  tvalid (validateTeam run_together) = false
  /\ length run_together_segments = 6%nat
  /\ tvalid (validateTeam (validateAndFixTeam run_together (js "ou"))) = true.
Proof.
  exact (conj run_together_rejected (conj eq_refl
    (validateAndFixTeam_repairs run_together (js "ou") run_together_segments
       [] run_together_rejected run_together_lines (Forall_nil _)
       run_together_ok eq_refl run_together_entries))).
Defined.

(** X11. Repairing twice is repairing once:
    [validateAndFixTeam (validateAndFixTeam T) = validateAndFixTeam T]
    for every text [T]. *)
Theorem validateAndFixTeam_idempotent (T format format' : jsstring) :
  validateAndFixTeam (validateAndFixTeam T format) format'
  = validateAndFixTeam T format.
Proof.
  destruct (tvalid (validateTeam T)) eqn:V.
  - assert (E : validateAndFixTeam T format = T)
      by (unfold validateAndFixTeam; now rewrite V).
    rewrite E. unfold validateAndFixTeam. now rewrite V.
  - destruct (repaired_groups T format V) as [G [F E]]. rewrite E.
    clear V E. unfold validateAndFixTeam.
    destruct (tvalid (validateTeam
                (join (map (fun g => join g [nl]) G) [nl; nl])));
      [reflexivity|].
    destruct G as [|g G]; [reflexivity|].
    rewrite (repair_of_segments _ [] (regrouped (g :: G))).
    + now rewrite regrouped_entries.
    + rewrite app_nil_r. apply regrouped_lines; [discriminate|exact F].
    + constructor.
    + now apply regrouped_ok.
Qed.

(** X12. What [validateAndFixTeam] returns on a text that [validateTeam]
    rejects is in normal form: it is its own candidates joined by blank
    lines, every candidate is a block of trimmed lines without a blank
    line, and in no candidate does the item delimiter come after the first
    line. *)
Theorem validateAndFixTeam_normal_form (T format : jsstring) :
  tvalid (validateTeam T) = false ->
  join (pokemonEntries (validateAndFixTeam T format)) [nl; nl]
  = validateAndFixTeam T format
  /\ Forall (fun e => block e
                      /\ join (entry_lines e) [nl] = e
                      /\ Forall (fun l => includes l (js "@") = false)
                                (tl (entry_lines e)))
            (pokemonEntries (validateAndFixTeam T format)).
Proof.
  intros V. destruct (repaired_groups T format V) as [G [F E]].
  rewrite E, (repaired_entries G F). split; [reflexivity|].
  apply Forall_map. revert F. apply Forall_impl.
  intros g [N [C A]].
  assert (L : entry_lines (join g [nl]) = g)
    by exact (trimmed_lines_join_clean g C).
  rewrite L. split; [now apply clean_group_block|]. now split.
Qed.

Lemma validateAndFixTeam_normal_form_witness :
  tvalid (validateTeam run_together) = false
  /\ join (pokemonEntries (validateAndFixTeam run_together (js "ou"))) [nl; nl]
     = validateAndFixTeam run_together (js "ou").
Proof.
  exact (conj run_together_rejected
    (proj1 (validateAndFixTeam_normal_form run_together (js "ou")
              run_together_rejected))).
Defined.

(** X13. On a text of white space only, the empty text among them,
    [validateAndFixTeam] returns the empty text. *)
Theorem validateAndFixTeam_blank_text (T format : jsstring) :
  Forall (fun c => is_ws c = true) T -> validateAndFixTeam T format = [].
Proof.
  intros F. unfold validateAndFixTeam.
  rewrite (validateTeam_blank_rejected T F).
  rewrite (repair_of_segments _ (split T [nl]) []); [reflexivity|reflexivity| |exact I].
  pose proof (split_from_Forall _ [nl] T F 0%nat) as H.
  revert H. apply Forall_impl. exact blank_of_ws.
Qed.

Lemma validateAndFixTeam_blank_text_witness :
  Forall (fun c => is_ws c = true) [32; nl; nl; 9; nl]
  /\ validateAndFixTeam [32; nl; nl; 9; nl] (js "ou") = [].
Proof.
  assert (F : Forall (fun c => is_ws c = true) [32; nl; nl; 9; nl])
    by (repeat constructor).
  exact (conj F (validateAndFixTeam_blank_text _ (js "ou") F)).
Defined.

(** ** Runs of line feeds between entries *)

Section LineFeeds.

Lemma block_start (e : jsstring) :
  block e -> exists c r, e = c :: r /\ c <> nl.
Proof.
  intros [T [_ [S _]]]. destruct e as [|c r]; [discriminate|].
  exists c, r. split; [reflexivity|].
  rewrite startsWith_cons, startsWith_nil, andb_true_r in S.
  now apply N.eqb_neq.
Qed.

Lemma spaced_team_start (e : jsstring) (more : list (nat * jsstring)) :
  block e -> exists c r, spaced_team e more = c :: r /\ c <> nl.
Proof.
  intros B. destruct (block_start e B) as [c [r [-> C]]].
  destruct more as [|[k e'] more]; cbn [spaced_team].
  - now exists c, r.
  - exists c, (r ++ repeat nl (2 + k) ++ spaced_team e' more). now split.
Qed.

Lemma trim_line_feed (s : jsstring) : trim (nl :: s) = trim s.
Proof. reflexivity. Qed.

Lemma split_from_cons0 (sep : jsstring) (c : char) (rest : jsstring) :
  split_from sep 0 (c :: rest)
  = if startsWith (c :: rest) sep
    then [] :: split_from sep (length sep - 1) rest
    else match split_from sep 0 rest with
         | piece :: more => (c :: piece) :: more
         | [] => [[c]]
         end.
Proof. reflexivity. Qed.

Lemma split_from_nonempty (sep s : jsstring) :
  forall k, split_from sep k s <> [].
Proof.
  induction s as [|c r IH]; intros k; cbn [split_from]; [discriminate|].
  destruct k as [|k]; [|apply IH].
  destruct (startsWith (c :: r) sep); [discriminate|].
  destruct (split_from sep 0 r); discriminate.
Qed.

(** The candidates behind a run of line feeds. *)
Lemma pokemonEntries_line_feeds (k : nat) (c : char) (r : jsstring) :
  c <> nl ->
  filter (fun entry => truthy (trim entry))
         (split (repeat nl k ++ c :: r) [nl; nl])
  = match split (c :: r) [nl; nl] with
    | p :: ps =>
        filter (fun entry => truthy (trim entry))
               ((if Nat.odd k then nl :: p else p) :: ps)
    | [] => []
    end.
Proof.
  intros C. apply N.eqb_neq in C.
  induction k as [k IH] using (well_founded_induction lt_wf).
  destruct k as [|[|k]].
  - cbn [repeat app Nat.odd Nat.even negb].
    destruct (split (c :: r) [nl; nl]) eqn:E; [|reflexivity].
    now apply split_from_nonempty in E.
  - cbn [repeat app]. unfold split.
    rewrite (split_from_cons0 _ nl).
    rewrite !startsWith_cons, C, andb_false_r. cbn [andb].
    destruct (split_from [nl; nl] 0 (c :: r)) eqn:E; [|reflexivity].
    now apply split_from_nonempty in E.
  - change (repeat nl (S (S k)) ++ c :: r)
      with ([] ++ [nl; nl] ++ (repeat nl k ++ c :: r)).
    rewrite split_nn_cons by reflexivity.
    cbn [filter]. change (truthy (trim [])) with false. cbn iota.
    rewrite IH by lia.
    change (Nat.odd (S (S k))) with (Nat.odd k). reflexivity.
Qed.

Lemma pokemonEntries_spaced_team (more : list (nat * jsstring)) :
  forall e, Forall block (e :: map snd more) ->
    exists rest,
      split (spaced_team e more) [nl; nl] = e :: rest
      /\ filter (fun entry => truthy (trim entry)) rest
         = map after_line_feeds more.
Proof.
  induction more as [|[k e'] more IH]; intros e F.
  - exists []. split; [|reflexivity]. cbn [spaced_team].
    inversion F as [|? ? [_ [I _]] _]; subst. now apply split_nn_whole.
  - inversion F as [|? ? Be F']; subst. cbn [map snd] in F'.
    destruct (IH e' F') as [rest [E R]].
    inversion F' as [|? ? Be' _]; subst.
    destruct (spaced_team_start e' more Be') as [c [r [V C]]].
    exists (split (repeat nl k ++ spaced_team e' more) [nl; nl]).
    split.
    + change (spaced_team e ((k, e') :: more))
        with (e ++ repeat nl (2 + k) ++ spaced_team e' more).
      change (repeat nl (2 + k)) with ([nl; nl] ++ repeat nl k).
      rewrite <- app_assoc.
      destruct Be as [_ [I [_ En]]]. now rewrite split_nn_cons.
    + rewrite V, pokemonEntries_line_feeds by exact C.
      rewrite <- V, E. cbn [filter map].
      unfold after_line_feeds at 1. cbn [fst snd].
      destruct Be' as [Te' _].
      destruct (Nat.odd k); [rewrite trim_line_feed|]; now rewrite Te', R.
Qed.

Lemma entry_lines_line_feed (e : jsstring) :
  entry_lines (nl :: e) = entry_lines e.
Proof.
  unfold entry_lines. rewrite !split_nl_pieces.
  now rewrite pieces_sep by reflexivity.
Qed.

(** Two lists of candidates read alike line by line fare alike. *)
Lemma validateTeam_loop_same_lines (es es' : list jsstring) :
  Forall2 (fun a b => entry_lines a = entry_lines b) es es' ->
  forall i acc acc',
    loop_error (validateTeam_loop i es acc)
    = loop_error (validateTeam_loop i es' acc').
Proof.
  induction 1 as [|a b es es' E _ IH]; intros i acc acc'; [reflexivity|].
  cbn [validateTeam_loop].
  rewrite (validatePokemon_same_lines b a E).
  destruct (validatePokemon b); [apply IH|reflexivity].
Qed.

Lemma validateTeam_same_lines (T T' : jsstring) :
  Forall2 (fun a b => entry_lines a = entry_lines b)
          (pokemonEntries T) (pokemonEntries T') ->
  team_error (validateTeam T) = team_error (validateTeam T').
Proof.
  intros F. unfold validateTeam.
  rewrite (Forall2_length F).
  destruct (length (pokemonEntries T') =? 6)%nat; [|reflexivity].
  cbn [negb].
  pose proof (validateTeam_loop_same_lines _ _ F 0%nat [] []) as L.
  destruct (validateTeam_loop 0 (pokemonEntries T) []);
    destruct (validateTeam_loop 0 (pokemonEntries T') []);
    cbn [loop_error] in L; cbn [team_error]; congruence.
Qed.

End LineFeeds.

(** X14. Any run of two line feeds or more sets entries apart.  In a text
    of blocks with such runs between them [validateTeam] finds one
    candidate for each block, with one line feed in front when the run is
    odd, and gives the verdict and the reason it gives on the same blocks
    joined by exactly two line feeds. *)
Theorem validateTeam_extra_line_feeds
    (e : jsstring) (more : list (nat * jsstring)) :
  Forall block (e :: map snd more) ->
  pokemonEntries (spaced_team e more) = e :: map after_line_feeds more
  /\ team_error (validateTeam (spaced_team e more))
     = team_error (validateTeam (join (e :: map snd more) [nl; nl])).
Proof.
  intros F.
  destruct (pokemonEntries_spaced_team more e F) as [rest [E R]].
  assert (P : pokemonEntries (spaced_team e more)
              = e :: map after_line_feeds more).
  { unfold pokemonEntries. rewrite E. cbn [filter].
    inversion F as [|? ? [Te _] _]; subst. now rewrite Te, R. }
  split; [exact P|].
  apply validateTeam_same_lines.
  rewrite P, pokemonEntries_join_blocks by (discriminate || exact F).
  constructor; [reflexivity|].
  clear. induction more as [|[k e'] more IH]; cbn [map]; constructor.
  - unfold after_line_feeds. cbn [fst snd].
    destruct (Nat.odd k); [apply entry_lines_line_feed|reflexivity].
  - exact IH.
Qed.

Lemma validateTeam_extra_line_feeds_witness :
  Forall block (flygon :: map snd [(1%nat, galvantula); (2%nat, flygon);
                                   (0%nat, galvantula); (3%nat, flygon);
                                   (5%nat, galvantula)])
  /\ team_error (validateTeam
       (spaced_team flygon [(1%nat, galvantula); (2%nat, flygon);
                            (0%nat, galvantula); (3%nat, flygon);
                            (5%nat, galvantula)]))
     = None.
Proof.
  assert (Bf : block flygon) by (repeat split; run).
  assert (Bg : block galvantula) by (repeat split; run).
  assert (F : Forall block
                (flygon :: map snd [(1%nat, galvantula); (2%nat, flygon);
                                    (0%nat, galvantula); (3%nat, flygon);
                                    (5%nat, galvantula)]))
    by (cbn [map snd]; repeat (apply Forall_cons; [assumption|]);
        apply Forall_nil).
  refine (conj F _).
  etransitivity;
    [exact (proj2 (validateTeam_extra_line_feeds flygon _ F))|run].
Defined.

(** ** Lines added to an entry *)

Section AddedLines.

Lemma entry_lines_app (E X : jsstring) :
  entry_lines (E ++ nl :: X) = entry_lines E ++ entry_lines X.
Proof. exact (trimmed_lines_app E X). Qed.

Lemma find_app_found (f : jsstring -> bool) (ls xs : list jsstring) :
  existsb f ls = true -> find f (ls ++ xs) = find f ls.
Proof.
  induction ls as [|l ls IH]; [discriminate|].
  cbn [existsb find app]. destruct (f l); [reflexivity|exact IH].
Qed.

Lemma first_failure_appended (ls xs : list jsstring) :
  first_failure record_checks ls = None ->
  first_failure record_checks (ls ++ xs)
  = if (length (filter is_move xs) =? 0)%nat then None
    else Some (js "Expected 4 moves, found "
               ++ dec (4 + length (filter is_move xs))).
Proof.
  unfold record_checks, ev_spread. cbn [first_failure passes reason].
  destruct (6 <=? length ls)%nat eqn:L; [|discriminate].
  destruct (includes (nth 0 ls []) (js "@")) eqn:I; [|discriminate].
  destruct (existsb is_ability ls) eqn:A; [|discriminate].
  destruct (existsb is_ev ls) eqn:V; [|discriminate].
  destruct (existsb is_nature ls) eqn:N; [|discriminate].
  destruct (existsb is_move ls) eqn:M; [|discriminate].
  rewrite (find_app_found is_ev ls xs V).
  destruct (match find is_ev ls with
            | Some _ =>
                validateEVSpread
                  match find is_ev ls with
                  | Some evLine => trim (replace evLine (js "EVs:") [])
                  | None => []
                  end
            | None => true
            end); [|discriminate].
  destruct (length (filter is_move ls) =? 4)%nat eqn:C; [|discriminate].
  intros _. apply Nat.leb_le in L. apply Nat.eqb_eq in C.
  rewrite length_app.
  replace (6 <=? length ls + length xs)%nat with true
    by (symmetry; apply Nat.leb_le; lia).
  rewrite app_nth1 by lia. rewrite I.
  rewrite !existsb_app, A, V, N, M. cbn [orb].
  rewrite filter_app, length_app, C.
  destruct (length (filter is_move xs)); reflexivity.
Qed.

End AddedLines.

(** X15. Lines added below an entry that [validatePokemon] accepts leave
    it accepted as long as none of them starts with the move marker, be it
    a second EVs line; with [k] move lines among them the entry is
    rejected with ["Expected 4 moves, found 4+k"]. *)
Theorem validatePokemon_added_lines (E X : jsstring) :
  pvalid (validatePokemon E) = true ->
  validatePokemon (E ++ nl :: X)
  = if (length (filter is_move (entry_lines X)) =? 0)%nat
    then PValid (E ++ nl :: X)
    else PInvalid (js "Expected 4 moves, found "
                   ++ dec (4 + length (filter is_move (entry_lines X)))).
Proof.
  intros V. rewrite validatePokemon_first_failure in V.
  rewrite validatePokemon_first_failure, entry_lines_app.
  destruct (first_failure record_checks (entry_lines E)) eqn:F;
    [discriminate|].
  rewrite (first_failure_appended _ _ F).
  destruct (length (filter is_move (entry_lines X)) =? 0)%nat; reflexivity.
Qed.

Lemma validatePokemon_added_lines_witness :
  pvalid (validatePokemon flygon) = true
  /\ validatePokemon (flygon ++ nl :: js "EVs: 4 HP")
     = PValid (flygon ++ nl :: js "EVs: 4 HP")
  /\ validatePokemon (flygon ++ nl :: js "- Outrage")
     = PInvalid (js "Expected 4 moves, found 5").
Proof.
  assert (V : pvalid (validatePokemon flygon) = true) by run.
  refine (conj V (conj _ _)).
  - exact (validatePokemon_added_lines flygon (js "EVs: 4 HP") V).
  - exact (validatePokemon_added_lines flygon (js "- Outrage") V).
Defined.

(** ** The text handed back to the caller *)

Section Tidy.

Lemma trim_tidy (s : jsstring) : tidy s -> trim s = s.
Proof.
  intros [_ [H1 H2]]. unfold trim, trimEnd.
  now rewrite H1, H2, rev_involutive.
Qed.

Lemma trimStart_app_fixed (a x : jsstring) :
  a <> [] -> trimStart a = a -> trimStart (a ++ x) = a ++ x.
Proof.
  intros N H. pose proof (trimStart_head a) as Hd. rewrite H in Hd.
  destruct a as [|c a]; [contradiction|].
  cbn [app trimStart]. now rewrite Hd.
Qed.

Lemma tidy_app (a m b : jsstring) : tidy a -> tidy b -> tidy (a ++ m ++ b).
Proof.
  intros [Na [Ha _]] [Nb [_ Hb]]. split; [|split].
  - destruct a; [contradiction|discriminate].
  - now apply trimStart_app_fixed.
  - rewrite app_assoc, rev_app_distr.
    apply trimStart_app_fixed; [|exact Hb].
    intros R. apply (f_equal (@rev char)) in R.
    rewrite rev_involutive in R. contradiction.
Qed.

Lemma tidy_join (es : list jsstring) (sep : jsstring) :
  es <> [] -> Forall tidy es -> tidy (join es sep).
Proof.
  intros N F. induction F as [|e es He F IH]; [contradiction|].
  destruct es as [|e' es]; [exact He|].
  rewrite join_cons2. apply tidy_app; [exact He|].
  apply IH. discriminate.
Qed.

Lemma clean_line_tidy (l : jsstring) : clean_line l -> tidy l.
Proof.
  intros [T [I _]]. split; [now destruct l|]. split.
  - pose proof (trimEnd_keeps_head (trimStart l) (trimStart_twice l)) as H.
    fold (trim l) in H. now rewrite I in H.
  - pose proof (trimEnd_twice (trimStart l)) as H.
    fold (trim l) in H. rewrite I in H. unfold trimEnd in H.
    apply (f_equal (@rev char)) in H. now rewrite rev_involutive in H.
Qed.

Lemma good_group_tidy (g : list jsstring) :
  good_group g -> tidy (join g [nl]).
Proof.
  intros [N [C _]]. apply tidy_join; [exact N|].
  revert C. apply Forall_impl. exact clean_line_tidy.
Qed.

Lemma repaired_trimmed (T format : jsstring) :
  tvalid (validateTeam T) = false ->
  trim (validateAndFixTeam T format) = validateAndFixTeam T format.
Proof.
  intros V. destruct (repaired_groups T format V) as [G [F E]].
  rewrite E. destruct G as [|g G]; [reflexivity|].
  apply trim_tidy, tidy_join; [discriminate|].
  apply Forall_map. revert F. apply Forall_impl. exact good_group_tidy.
Qed.

End Tidy.

(** X16. The team text that [generateTeamWithAI] hands back has no white
    space at either end, whatever the completion: a valid team is the
    trimmed completion itself, and a repaired one starts and ends with a
    trimmed line. *)
Theorem generateTeamWithAI_result_trimmed (content format : jsstring) :
  trim (generateTeamWithAI_result content format)
  = generateTeamWithAI_result content format
  /\ (tvalid (validateTeam (trim content)) = true ->
      generateTeamWithAI_result content format = trim content).
Proof.
  unfold generateTeamWithAI_result.
  destruct (tvalid (validateTeam (trim content))) eqn:V.
  - assert (E : validateAndFixTeam (trim content) format = trim content)
      by (unfold validateAndFixTeam; now rewrite V).
    rewrite E. split; [apply trim_twice|reflexivity].
  - split; [now apply repaired_trimmed|discriminate].
Qed.

Lemma generateTeamWithAI_result_trimmed_witness :
  tvalid (validateTeam (trim (32 :: nl :: team6 ++ [nl; 32]))) = true
  /\ generateTeamWithAI_result (32 :: nl :: team6 ++ [nl; 32]) (js "ou")
     = trim (32 :: nl :: team6 ++ [nl; 32]).
Proof.
  assert (V : tvalid (validateTeam (trim (32 :: nl :: team6 ++ [nl; 32])))
              = true) by run.
  exact (conj V (proj2 (generateTeamWithAI_result_trimmed _ (js "ou")) V)).
Defined.
